(** * sebak: the ISAAC state manager and the block-operation index

    A shallow embedding of
      - lib/node/runner/isaac_state_manager.go  (module [Runner]), and
      - the block-operation store of package block (module [Block]),
    with the properties the specification states about them. *)

From Stdlib Require Import ZArith Lia List Bool Ascii String.
From stdpp Require Import base decidable option list gmap strings sorting.

Local Open Scope Z_scope.

(** ** Machine integers

    Go's [uint64] and [int64] (the latter underlies [time.Duration]) are
    integers of [Z] with the wrap-around written out. *)
Module Int.

Definition two64 : Z := 2 ^ 64.
Definition two63 : Z := 2 ^ 63.

Definition MinInt64 : Z := - two63.
Definition MaxInt64 : Z := two63 - 1.
Definition MaxUint64 : Z := two64 - 1.

Definition is_uint64 (z : Z) : Prop := 0 <= z <= MaxUint64.
Definition is_int64 (z : Z) : Prop := MinInt64 <= z <= MaxInt64.

(** Arithmetic on [uint64] is modulo 2^64. *)
Definition wrapUint64 (z : Z) : Z := z mod two64.

(** Arithmetic on [int64] is two's complement. *)
Definition wrapInt64 (z : Z) : Z := (z + two63) mod two64 - two63.

(** The conversion [int64(x)] of an [x : uint64] keeps the bit pattern. *)
Definition int64_of_uint64 (z : Z) : Z := wrapInt64 z.

Definition sub64 (a b : Z) : Z := wrapInt64 (a - b).
Definition add64 (a b : Z) : Z := wrapInt64 (a + b).
(** Go's [/] truncates towards zero; [MinInt64 / -1] wraps to [MinInt64]. *)
Definition quo64 (a b : Z) : Z := wrapInt64 (Z.quot a b).

Definition usub64 (a b : Z) : Z := wrapUint64 (a - b).
Definition uadd64 (a b : Z) : Z := wrapUint64 (a + b).

End Int.

(** ** package time *)
Module Time.

(** [time.Duration] is an [int64] count of nanoseconds. *)
Definition Duration : Type := Z.

Definition Nanosecond : Duration := 1.
Definition Millisecond : Duration := 1000000.
Definition Second : Duration := 1000000000.
Definition Hour : Duration := 3600 * Second.

(** A [time.Time] is an instant; here, nanoseconds since the zero [Time],
    which is therefore 0. *)
Definition Time : Type := Z.

(** [t.Sub(u)] is the duration [t - u], saturated to the range of
    [Duration]. *)
Definition Sub (t u : Time) : Duration :=
  Z.max Int.MinInt64 (Z.min Int.MaxInt64 (t - u)).

End Time.

(** ** package ballot: the ballot states *)
Module Ballot.

(** Modelled from the spec: the declaration of [ballot.State] is not among
    the sources; the data model gives its four values, in this order. *)
Inductive State : Type :=
| StateINIT
| StateSIGN
| StateACCEPT
| StateALLCONFIRM.

#[global] Instance State_eq_dec : EqDecision State.
Proof. solve_decision. Defined.

(** Modelled from the spec: the ordinals of the ballot states,
    INIT = 0, SIGN = 1, ACCEPT = 2, ALLCONFIRM = 3. *)
Definition ordinal (s : State) : Z :=
  match s with
  | StateINIT => 0
  | StateSIGN => 1
  | StateACCEPT => 2
  | StateALLCONFIRM => 3
  end.

(** Modelled from the spec: [State.Next] is not among the sources. The
    manager is modelled over any such function; this instance, used in the
    examples, is the successor along INIT, SIGN, ACCEPT, ALLCONFIRM. The
    specification gives ALLCONFIRM no successor: here it is left in place. *)
Definition successor (s : State) : State :=
  match s with
  | StateINIT => StateSIGN
  | StateSIGN => StateACCEPT
  | StateACCEPT => StateALLCONFIRM
  | StateALLCONFIRM => StateALLCONFIRM
  end.

End Ballot.

(** ** package voting *)
Module Voting.



End Voting.

(** ** package consensus: [ISAACState] *)
Module Consensus.

Record ISAACState : Type := {
  Height : Z;
  Round : Z;
  BallotState : Ballot.State;
}.

#[global] Instance ISAACState_eq_dec : EqDecision ISAACState.
Proof. solve_decision. Defined.

(** Modelled from the spec: [ISAACState.IsLater] is not among the sources.
    [IsLater s target] holds iff [target] is strictly greater than [s] in the
    lexicographic order on (Height, Round, ordinal of BallotState). *)
Definition IsLater (s target : ISAACState) : bool :=
  if negb (Height s =? Height target) then Height s <? Height target
  else if negb (Round s =? Round target) then Round s <? Round target
  else Ballot.ordinal (BallotState s) <? Ballot.ordinal (BallotState target).

End Consensus.

(** The fields of the latest confirmed block that the state manager reads
    through [Consensus().LatestBlock()]. *)
Module LatestBlock.

Record t : Type := {
  Height : Z;
  Hash : string;
  TotalTxs : Z;
  TotalOps : Z;
  Confirmed : string;
}.

End LatestBlock.

(** ** package runner: isaac_state_manager.go *)
Module Runner.
Import Time.

Record Config : Type := {
  BlockTime : Duration;
  TimeoutINIT : Duration;
  TimeoutSIGN : Duration;
  TimeoutACCEPT : Duration;
}.

(** What the state manager reads from its [NodeRunner]. *)
Record NodeRunner : Type := {
  LatestBlock : LatestBlock.t;
  SelectProposer : Z -> Z -> string;
  localNodeAddress : string;
}.

(** The surroundings of one step of the manager: the node runner as it is
    then, and the readings of [time.Now()], in the order of the calls. *)
Record Env : Type := {
  nr : NodeRunner;
  Now : nat -> Time;
}.


(** What the event loop does to the outside, in program order. *)
Inductive Effect : Type :=
| GoBroadcastExpiredBallot (state : Consensus.ISAACState)
| TransitSignal (state : Consensus.ISAACState)
| Sleep (d : Duration)
| ProposeNewBallot (round : Z).

(** [stateTransit] and [stop] are unbuffered channels: they hold the values
    of the goroutines that are blocked sending on them. *)
Record ISAACStateManager : Type := {
  state : Consensus.ISAACState;
  stateTransit : list Consensus.ISAACState;
  stop : nat;
  blockTimeBuffer : Duration;
  genesis : Time;
  Conf : Config;
}.

Definition set_state (s : Consensus.ISAACState) (sm : ISAACStateManager) :=
  {| state := s; stateTransit := stateTransit sm; stop := stop sm;
     blockTimeBuffer := blockTimeBuffer sm; genesis := genesis sm;
     Conf := Conf sm |}.

Definition set_stateTransit (q : list Consensus.ISAACState)
    (sm : ISAACStateManager) :=
  {| state := state sm; stateTransit := q; stop := stop sm;
     blockTimeBuffer := blockTimeBuffer sm; genesis := genesis sm;
     Conf := Conf sm |}.

Definition set_stop (n : nat) (sm : ISAACStateManager) :=
  {| state := state sm; stateTransit := stateTransit sm; stop := n;
     blockTimeBuffer := blockTimeBuffer sm; genesis := genesis sm;
     Conf := Conf sm |}.

Definition set_blockTimeBuffer (d : Duration) (sm : ISAACStateManager) :=
  {| state := state sm; stateTransit := stateTransit sm; stop := stop sm;
     blockTimeBuffer := d; genesis := genesis sm; Conf := Conf sm |}.

(** [NewISAACStateManager], given the timestamp of the genesis block. *)
Definition NewISAACStateManager (genesisTimestamp : Time) (conf : Config)
    : ISAACStateManager :=
  {| state := {| Consensus.Height := 0; Consensus.Round := 0;
                 Consensus.BallotState := Ballot.StateINIT |};
     stateTransit := [];
     stop := 0%nat;
     blockTimeBuffer := 2 * Second;
     genesis := genesisTimestamp;
     Conf := conf |}.

Definition calculateAverageBlockTime (now : Time) (genesis : Time)
    (blockHeight : Z) : Duration :=
  let genesisBlockHeight := 1 in
  let height := Int.usub64 blockHeight genesisBlockHeight in
  let sinceGenesis := Sub now genesis in
  if height =? 0 then sinceGenesis
  else Int.quo64 sinceGenesis (Int.int64_of_uint64 height).

Definition calculateBlockTimeBuffer (goal average untilNow delta : Duration)
    : Duration :=
  let epsilon := 50 * Millisecond in
  let blockTimeBuffer :=
    if average >=? goal then
      if Int.sub64 average goal <? epsilon then Int.sub64 goal untilNow
      else Int.sub64 (Int.sub64 goal delta) untilNow
    else
      if Int.sub64 goal average <? epsilon then Int.sub64 goal untilNow
      else Int.sub64 (Int.add64 goal delta) untilNow in
  if blockTimeBuffer <? 0 then 0 else blockTimeBuffer.

Definition State (sm : ISAACStateManager) : Consensus.ISAACState := state sm.

Definition setState (s : Consensus.ISAACState) (sm : ISAACStateManager) :=
  set_state s sm.

Definition setBallotState (ballotState : Ballot.State)
    (sm : ISAACStateManager) :=
  set_state {| Consensus.Height := Consensus.Height (state sm);
               Consensus.Round := Consensus.Round (state sm);
               Consensus.BallotState := ballotState |} sm.

(** The goroutine started here blocks on the send until the loop receives. *)
Definition TransitISAACState (height round : Z) (ballotState : Ballot.State)
    (sm : ISAACStateManager) : ISAACStateManager :=
  let current := state sm in
  let target := {| Consensus.Height := height; Consensus.Round := round;
                   Consensus.BallotState := ballotState |} in
  if Consensus.IsLater current target
  then set_stateTransit (stateTransit sm ++ [target]) sm
  else sm.

Definition IncreaseRound (sm : ISAACStateManager) : ISAACStateManager :=
  let state := State sm in
  TransitISAACState (Consensus.Height state)
    (Int.uadd64 (Consensus.Round state) 1) Ballot.StateINIT sm.

Definition NextHeight (sm : ISAACStateManager) : ISAACStateManager :=
  let state := State sm in
  TransitISAACState (Int.uadd64 (Consensus.Height state) 1) 0
    Ballot.StateINIT sm.

Definition Stop (sm : ISAACStateManager) : ISAACStateManager :=
  set_stop (S (stop sm)) sm.

(** A [*time.Timer]: [Some d] when armed to fire after [d], [None] once it
    has fired. *)
Definition Timer : Type := option Duration.

Definition resetTimer (conf : Config) (timer : Timer) (state : Ballot.State)
    : Timer :=
  match state with
  | Ballot.StateINIT => Some (TimeoutINIT conf)
  | Ballot.StateSIGN => Some (TimeoutSIGN conf)
  | Ballot.StateACCEPT => Some (TimeoutACCEPT conf)
  | _ => timer
  end.

(** The goroutine of [Start]: the manager, the loop's timer, whether the
    loop still runs, and what it has done so far. *)
Record Loop : Type := {
  sm : ISAACStateManager;
  timer : Timer;
  running : bool;
  effects : list Effect;
}.

Definition Start (sm : ISAACStateManager) : Loop :=
  {| sm := sm; timer := Some (1 * Hour); running := true; effects := [] |}.

Section Collaborators.

(** [ballot.State.Next] and [common.ParseISO8601] are not among the sources;
    the manager is modelled over any such functions. [ParseISO8601] gives
    [None] where the Go function returns an error. *)
Variable Next : Ballot.State -> Ballot.State.
Variable ParseISO8601 : string -> option Time.

(** The parse error is dropped; the time is then the zero [Time]. *)
Definition getBallotProposedTime (timeStr : string) : Time :=
  match ParseISO8601 timeStr with
  | Some t => t
  | None => 0
  end.

Definition SetBlockTimeBuffer (env : Env) (sm : ISAACStateManager)
    : ISAACStateManager :=
  let b := LatestBlock (nr env) in
  let ballotProposedTime := getBallotProposedTime (LatestBlock.Confirmed b) in
  set_blockTimeBuffer
    (calculateBlockTimeBuffer
       (BlockTime (Conf sm))
       (calculateAverageBlockTime (Now env 0) (genesis sm)
          (LatestBlock.Height b))
       (Sub (Now env 1) ballotProposedTime)
       (1 * Second))
    sm.


Definition proposeOrWait (env : Env) (l : Loop)
    (state : Consensus.ISAACState) : Loop :=
  let proposer :=
    SelectProposer (nr env) (Consensus.Height state) (Consensus.Round state) in
  if String.eqb proposer (localNodeAddress (nr env)) then
    {| sm := setState state (sm l);
       timer := Some (TimeoutINIT (Conf (sm l)));
       running := running l;
       effects := effects l ++ [Sleep (blockTimeBuffer (sm l));
                                ProposeNewBallot (Consensus.Round state);
                                TransitSignal state] |}
  else
    {| sm := setState state (sm l);
       timer := Some (Int.add64 (blockTimeBuffer (sm l))
                                (TimeoutINIT (Conf (sm l))));
       running := running l;
       effects := effects l ++ [TransitSignal state] |}.

(** [case <-timer.C] of the loop. *)
Definition onTimer (env : Env) (l : Loop) : Loop :=
  if decide (Consensus.BallotState (State (sm l)) = Ballot.StateACCEPT) then
    {| sm := IncreaseRound (SetBlockTimeBuffer env (sm l));
       timer := timer l;
       running := running l;
       effects := effects l |}
  else
    let expired := State (sm l) in
    let sm1 := setBallotState (Next (Consensus.BallotState (State (sm l))))
                 (sm l) in
    {| sm := sm1;
       timer := resetTimer (Conf sm1) (timer l)
                  (Consensus.BallotState (State sm1));
       running := running l;
       effects := effects l ++ [GoBroadcastExpiredBallot expired;
                                TransitSignal (State sm1)] |}.

(** [case state := <-sm.stateTransit] of the loop. *)
Definition onStateTransit (env : Env) (l : Loop)
    (state : Consensus.ISAACState) : Loop :=
  match Consensus.BallotState state with
  | Ballot.StateINIT => proposeOrWait env l state
  | Ballot.StateSIGN =>
      {| sm := setState state (sm l);
         timer := Some (TimeoutSIGN (Conf (sm l)));
         running := running l;
         effects := effects l ++ [TransitSignal state] |}
  | Ballot.StateACCEPT =>
      {| sm := setState state (sm l);
         timer := Some (TimeoutACCEPT (Conf (sm l)));
         running := running l;
         effects := effects l ++ [TransitSignal state] |}
  | Ballot.StateALLCONFIRM =>
      {| sm := NextHeight (SetBlockTimeBuffer env (setState state (sm l)));
         timer := timer l;
         running := running l;
         effects := effects l ++ [TransitSignal state] |}
  end.

(** The events the loop's [select] chooses among. [Received i] takes the
    value of the [i]-th goroutine blocked on [stateTransit]. *)
Inductive Event : Type :=
| TimerFired
| Received (i : nat)
| StopReceived.

(** One iteration of the loop; [None] when the event cannot happen. *)
Definition selectCase (env : Env) (e : Event) (l : Loop) : option Loop :=
  if negb (running l) then None else
  match e with
  | TimerFired =>
      match timer l with
      | Some _ =>
          Some (onTimer env {| sm := sm l; timer := None;
                               running := running l; effects := effects l |})
      | None => None
      end
  | Received i =>
      match stateTransit (sm l) !! i with
      | Some state =>
          Some (onStateTransit env
                  {| sm := set_stateTransit (delete i (stateTransit (sm l)))
                             (sm l);
                     timer := timer l; running := running l;
                     effects := effects l |}
                  state)
      | None => None
      end
  | StopReceived =>
      match stop (sm l) with
      | S n => Some {| sm := set_stop n (sm l); timer := timer l;
                       running := false; effects := effects l |}
      | O => None
      end
  end.

(** What can happen to a started manager: a call of its public methods
    from another goroutine, or an iteration of the loop. *)
Inductive Action : Type :=
| CallTransitISAACState (height round : Z) (ballotState : Ballot.State)
| CallStop
| LoopEvent (e : Event).

Definition step (env : Env) (a : Action) (l : Loop) : option Loop :=
  match a with
  | CallTransitISAACState height round ballotState =>
      Some {| sm := TransitISAACState height round ballotState (sm l);
              timer := timer l; running := running l; effects := effects l |}
  | CallStop =>
      Some {| sm := Stop (sm l); timer := timer l; running := running l;
              effects := effects l |}
  | LoopEvent e => selectCase env e l
  end.

(** The states that [State()] returns when it is called before the first
    and after each action of a schedule. *)
Fixpoint observe (schedule : list (Env * Action)) (l : Loop)
    : list Consensus.ISAACState :=
  State (sm l) ::
  match schedule with
  | [] => []
  | (env, a) :: rest =>
      match step env a l with
      | Some l' => observe rest l'
      | None => []
      end
  end.

End Collaborators.

(** [IsLater(prev, curr) || prev == curr] for each two consecutive
    observations. *)
Fixpoint monotone (obs : list Consensus.ISAACState) : bool :=
  match obs with
  | prev :: ((curr :: _) as rest) =>
      (Consensus.IsLater prev curr || bool_decide (prev = curr))
      && monotone rest
  | _ => true
  end.

End Runner.

(** ** package errors *)
Module Errors.

(** The errors that [Save] and the store return. [Backend] stands for any
    error of the underlying key-value engine. *)
Inductive Error : Type :=
| AlreadySaved
| BlockAlreadyExists
| StorageRecordAlreadyExists
| StorageRecordDoesNotExist
| JSONDecode
| Backend (code : nat).

#[global] Instance Error_eq_dec : EqDecision Error.
Proof. solve_decision. Defined.

End Errors.

(** ** package common *)
Module Common.

(** Modelled from the spec: the key prefixes are constants of package common
    that are not among the sources; the key layout gives their values. *)
Definition BlockOperationPrefixHash : string := "bo-h-".
Definition BlockOperationPrefixTxHash : string := "bo-tx-".
Definition BlockOperationPrefixSource : string := "bo-src-".

(** The [width] low bytes of [v], most significant byte first. *)
Fixpoint bigEndian (width : nat) (v : Z) : string :=
  match width with
  | O => EmptyString
  | S w =>
      String (ascii_of_N (Z.to_N ((v / 256 ^ Z.of_nat w) mod 256)))
             (bigEndian w v)
  end.

(** Modelled from the spec: [common.EncodeUint64ToByteSlice] is not among the
    sources; it is the fixed-width 8-byte big-endian encoding. The keys print
    the byte slice with [%s], that is, as these bytes. *)
Definition EncodeUint64ToByteSlice (v : Z) : string := bigEndian 8 v.

(** The JSON documents that this package stores: an encoded string, or an
    encoded [BlockOperation] with its exported fields (hash, op_hash,
    tx_hash, type, source, body, block_height). *)
Inductive JSON : Type :=
| JSONString (s : string)
| JSONBlockOperation (hash opHash txHash type source : string)
    (body : list Byte.byte) (height : Z).

End Common.

(** ** package storage *)
Module Storage.
Import Errors.

(** Modelled from the spec: [storage.LevelDBBackend] is not among the
    sources. It is an ordered key-value store of JSON documents with
    [Has], [Get], [New] (which fails if the key is present, and otherwise
    inserts) and a prefix iterator in ascending key order. Any call may
    instead fail with an error of the engine: [faults] lists, for the calls
    to come, whether the engine fails. *)
Record LevelDBBackend : Type := {
  Core : gmap string Common.JSON;
  faults : list (option Error);
}.

(** Calls on the store change it and may fail. *)
Definition M (A : Type) : Type :=
  LevelDBBackend -> (Error + A) * LevelDBBackend.

Definition ret {A : Type} (a : A) : M A := fun st => (inr a, st).

Definition fail {A : Type} (e : Error) : M A := fun st => (inl e, st).

Definition bind {A B : Type} (m : M A) (k : A -> M B) : M B :=
  fun st =>
    match m st with
    | (inr a, st') => k a st'
    | (inl e, st') => (inl e, st')
    end.

(** The engine's verdict for this call. *)
Definition engine : M unit :=
  fun st =>
    match faults st with
    | Some e :: rest => (inl e, {| Core := Core st; faults := rest |})
    | None :: rest => (inr tt, {| Core := Core st; faults := rest |})
    | [] => (inr tt, st)
    end.

Definition Has (key : string) : M bool :=
  bind engine (fun _ st => (inr (bool_decide (is_Some (Core st !! key))), st)).

Definition Get (key : string) : M Common.JSON :=
  bind engine (fun _ st =>
    match Core st !! key with
    | Some v => (inr v, st)
    | None => (inl StorageRecordDoesNotExist, st)
    end).

Definition New (key : string) (v : Common.JSON) : M unit :=
  bind engine (fun _ st =>
    match Core st !! key with
    | Some _ => (inl StorageRecordAlreadyExists, st)
    | None =>
        (inr tt, {| Core := <[key := v]> (Core st); faults := faults st |})
    end).

Record IterItem : Type := {
  Key : string;
  Value : Common.JSON;
}.

(** Keys are ordered as byte strings. *)
Definition keyLe (x y : string * Common.JSON) : Prop :=
  String.leb x.1 y.1 = true.

#[global] Instance keyLe_dec x y : Decision (keyLe x y).
Proof. unfold keyLe. apply _. Defined.

(** Modelled from the spec: the items that an iterator over [prefix] yields,
    in its order: those whose key starts with [prefix], by ascending key.
    The iterator reads a snapshot. The specification names the options
    (Reverse, Limit, Cursor) without stating their effect; they are not
    modelled: this is the complete traversal in key order. *)
Definition GetIterator (prefix : string) (st : LevelDBBackend)
    : list IterItem :=
  (fun kv => {| Key := kv.1; Value := kv.2 |}) <$>
  merge_sort keyLe
    (filter (fun kv => String.prefix prefix kv.1 = true)
            (map_to_list (Core st))).

End Storage.

(** ** package transaction *)
Module Transaction.

(** The part of a transaction's body that the block-operation keys read. *)
Record Body : Type := {
  SequenceID : Z;
}.

Record Transaction : Type := {
  B : Body;
}.

(** The zero value, which a record read back from the store carries. *)
Definition zero : Transaction := {| B := {| SequenceID := 0 |} |}.

End Transaction.

(** ** package block: the block-operation index *)
Module Block.
Import Errors Storage.

Local Open Scope string_scope.

Record BlockOperation : Type := {
  Hash : string;
  OpHash : string;
  TxHash : string;
  Type_ : string;
  Source : string;
  Body : list Byte.byte;
  Height : Z;
  transaction : Transaction.Transaction;
  isSaved : bool;
}.

Definition set_isSaved (b : bool) (bo : BlockOperation) : BlockOperation :=
  {| Hash := Hash bo; OpHash := OpHash bo; TxHash := TxHash bo;
     Type_ := Type_ bo; Source := Source bo; Body := Body bo;
     Height := Height bo; transaction := transaction bo; isSaved := b |}.

Definition NewBlockOperationKey (opHash txHash : string) : string :=
  opHash ++ "-" ++ txHash.

(** JSON keeps the exported fields only. *)
Definition Serialize (bo : BlockOperation) : Common.JSON :=
  Common.JSONBlockOperation (Hash bo) (OpHash bo) (TxHash bo) (Type_ bo)
    (Source bo) (Body bo) (Height bo).

(** Decoding into a zero [BlockOperation]; a JSON string does not decode. *)
Definition Unmarshal (v : Common.JSON) : Error + BlockOperation :=
  match v with
  | Common.JSONBlockOperation hash opHash txHash type source body height =>
      inr {| Hash := hash; OpHash := opHash; TxHash := txHash; Type_ := type;
             Source := source; Body := body; Height := height;
             transaction := Transaction.zero; isSaved := false |}
  | Common.JSONString _ => inl JSONDecode
  end.

(** [json.Unmarshal(item.Value, &hash)] with the error dropped: [hash]
    stays empty when the document is not a string. *)
Definition UnmarshalString (v : Common.JSON) : string :=
  match v with
  | Common.JSONString s => s
  | _ => ""
  end.

Definition GetBlockOperationKey (hash : string) : string :=
  Common.BlockOperationPrefixHash ++ hash.

Definition GetBlockOperationKeyPrefixTxHash (txHash : string) : string :=
  Common.BlockOperationPrefixTxHash ++ txHash ++ "-".

Definition GetBlockOperationKeyPrefixSource (source : string) : string :=
  Common.BlockOperationPrefixSource ++ source ++ "-".

(** [uniqueID] is what [common.GetUniqueIDFromUUID()] returns at the call. *)
Definition NewBlockOperationTxHashKey (uniqueID : string)
    (bo : BlockOperation) : string :=
  GetBlockOperationKeyPrefixTxHash (TxHash bo)
  ++ Common.EncodeUint64ToByteSlice (Height bo)
  ++ Common.EncodeUint64ToByteSlice
       (Transaction.SequenceID (Transaction.B (transaction bo)))
  ++ uniqueID.

Definition NewBlockOperationSourceKey (uniqueID : string)
    (bo : BlockOperation) : string :=
  GetBlockOperationKeyPrefixSource (Source bo)
  ++ Common.EncodeUint64ToByteSlice (Height bo)
  ++ Common.EncodeUint64ToByteSlice
       (Transaction.SequenceID (Transaction.B (transaction bo)))
  ++ uniqueID.

(** The event handed to [observer.BlockOperationObserver.Trigger]. *)
Definition savedEvent (bo : BlockOperation) : string :=
  "saved"
  ++ " " ++ ("source-" ++ Source bo)
  ++ " " ++ ("hash-" ++ Hash bo)
  ++ " " ++ ("txhash-" ++ TxHash bo)
  ++ " " ++ ("source-type-" ++ Source bo ++ Type_ bo).

(** [bo.Save(st)]. [uniqueID1] and [uniqueID2] are the unique IDs drawn for
    the two index keys. On success the result is the record as [Save] leaves
    it, and the event triggered; on failure the record is as it was. *)
Definition Save (uniqueID1 uniqueID2 : string) (bo : BlockOperation)
    : M (BlockOperation * string) :=
  if isSaved bo then fail AlreadySaved else
  let key := GetBlockOperationKey (Hash bo) in
  bind (Has key) (fun exists_ =>
  if (exists_ : bool) then fail BlockAlreadyExists else
  bind (New key (Serialize bo)) (fun _ =>
  bind (New (NewBlockOperationTxHashKey uniqueID1 bo)
            (Common.JSONString (Hash bo))) (fun _ =>
  bind (New (NewBlockOperationSourceKey uniqueID2 bo)
            (Common.JSONString (Hash bo))) (fun _ =>
  let bo' := set_isSaved true bo in
  ret (bo', savedEvent bo'))))).

Definition ExistsBlockOperation (hash : string) : M bool :=
  Has (GetBlockOperationKey hash).

Definition GetBlockOperation (hash : string) : M BlockOperation :=
  bind (Get (GetBlockOperationKey hash)) (fun v =>
  match Unmarshal v with
  | inr bo => ret (set_isSaved true bo)
  | inl e => fail e
  end).

(** One call of the function that [LoadBlockOperationsInsideIterator]
    returns, on an iterator with [items] left: the record, [hasNext], the
    key, and the items left afterwards. *)
Definition next (items : list IterItem) (st : LevelDBBackend)
    : (option BlockOperation * bool * string) * list IterItem
      * LevelDBBackend :=
  match items with
  | [] => ((None, false, ""), [], st)
  | item :: rest =>
      let hash := UnmarshalString (Value item) in
      match GetBlockOperation hash st with
      | (inr bo, st') => ((Some bo, true, Key item), rest, st')
      | (inl _, st') => ((None, false, Key item), rest, st')
      end
  end.

(** The records a caller receives who calls the iterator function until it
    reports [hasNext = false]. *)
Fixpoint yields (items : list IterItem) (st : LevelDBBackend)
    : list BlockOperation :=
  match items with
  | [] => []
  | item :: rest =>
      match next items st with
      | ((Some bo, true, _), _, st') => bo :: yields rest st'
      | _ => []
      end
  end.

(** The iterator of [GetBlockOperationsByTxHash], as the items it has to
    go through; each call of the function it returns is [next]. *)
Definition GetBlockOperationsByTxHash (txHash : string) (st : LevelDBBackend)
    : list IterItem :=
  GetIterator (GetBlockOperationKeyPrefixTxHash txHash) st.


End Block.

(** ** The notions in which the properties of the index are stated *)
Module IndexModel.
Import Errors Storage Block.

Local Open Scope string_scope.

(** The three keys that [Save] writes for a record. *)
Definition primaryKey (bo : BlockOperation) : string :=
  GetBlockOperationKey (Hash bo).

(** The store after the first, the second and the third write of [Save]. *)
Definition withPrimary (bo : BlockOperation) (m : gmap string Common.JSON) :=
  <[primaryKey bo := Serialize bo]> m.

Definition withTxIndex (uniqueID1 : string) (bo : BlockOperation)
    (m : gmap string Common.JSON) :=
  <[NewBlockOperationTxHashKey uniqueID1 bo := Common.JSONString (Hash bo)]>
    (withPrimary bo m).

Definition withSourceIndex (uniqueID1 uniqueID2 : string)
    (bo : BlockOperation) (m : gmap string Common.JSON) :=
  <[NewBlockOperationSourceKey uniqueID2 bo := Common.JSONString (Hash bo)]>
    (withTxIndex uniqueID1 bo m).

(** The error with which the engine fails the next call, if it does. *)
Definition engineFails (st : LevelDBBackend) : option Error :=
  match faults st with
  | Some e :: _ => Some e
  | _ => None
  end.

(** One call of [Save], of any record, with any unique IDs and with the
    engine failing where it will, takes the content [m] of the store to
    [m']; the stores that such calls build from the empty store. *)
Definition save_step (m m' : gmap string Common.JSON) : Prop :=
  exists uniqueID1 uniqueID2 bo fs r fs',
    Save uniqueID1 uniqueID2 bo {| Core := m; faults := fs |}
    = (r, {| Core := m'; faults := fs' |}).

Definition reachable (m : gmap string Common.JSON) : Prop :=
  rtc save_step ∅ m.

(** [bo] was saved with success, under the unique IDs [uniqueID1] and
    [uniqueID2], at some point of a history that leads to the content [m]. *)
Definition Saved (uniqueID1 uniqueID2 : string) (bo : BlockOperation)
    (m : gmap string Common.JSON) : Prop :=
  exists m0 fs r fs' m1,
    reachable m0
    /\ Save uniqueID1 uniqueID2 bo {| Core := m0; faults := fs |}
       = (inr r, {| Core := m1; faults := fs' |})
    /\ rtc save_step m1 m.

(** Exactly one entry of [m] has a key that starts with [prefix] and the
    encoded [hash] as its value. *)
Definition pointsTo (m : gmap string Common.JSON) (prefix hash : string)
    (k : string) : Prop :=
  String.prefix prefix k = true /\ m !! k = Some (Common.JSONString hash).

Definition exactlyOne (m : gmap string Common.JSON) (prefix hash : string)
    : Prop :=
  exists k, pointsTo m prefix hash k
            /\ forall k', pointsTo m prefix hash k' -> k' = k.

(** A record as [GetBlockOperation] reads it back: the exported fields, no
    transaction, and the [isSaved] flag set. *)
Definition stored (bo : BlockOperation) : BlockOperation :=
  {| Hash := Hash bo; OpHash := OpHash bo; TxHash := TxHash bo;
     Type_ := Type_ bo; Source := Source bo; Body := Body bo;
     Height := Height bo; transaction := Transaction.zero;
     isSaved := true |}.

(** The record that an index entry resolves to in [m], if any. *)
Definition readBack (m : gmap string Common.JSON) (item : IterItem)
    : option BlockOperation :=
  match m !! GetBlockOperationKey (UnmarshalString (Value item)) with
  | Some v =>
      match Unmarshal v with
      | inr bo => Some (set_isSaved true bo)
      | inl _ => None
      end
  | None => None
  end.

(** The invariant of the stores that [Save] builds: an entry is a primary
    record under its own key, or an index entry that names a record present;
    and no two tx-index entries, and no two source-index entries, name the
    same record. The fourth byte of a key tells the three kinds apart. *)
Record Inv (m : gmap string Common.JSON) : Prop := {
  inv_shape : forall k v, m !! k = Some v ->
    (exists bo, k = primaryKey bo /\ v = Serialize bo)
    \/ (exists bo, v = Common.JSONString (Hash bo)
                   /\ String.get 3 k <> Some "h"%char
                   /\ m !! primaryKey bo = Some (Serialize bo));
  inv_tx : forall k1 k2 h,
    m !! k1 = Some (Common.JSONString h) ->
    m !! k2 = Some (Common.JSONString h) ->
    String.get 3 k1 = Some "t"%char -> String.get 3 k2 = Some "t"%char ->
    k1 = k2;
  inv_source : forall k1 k2 h,
    m !! k1 = Some (Common.JSONString h) ->
    m !! k2 = Some (Common.JSONString h) ->
    String.get 3 k1 = Some "s"%char -> String.get 3 k2 = Some "s"%char ->
    k1 = k2;
}.



(** The outcomes of [Save], by the number of writes made. *)
Inductive SaveOutcome (uniqueID1 uniqueID2 : string) (bo : BlockOperation)
    (m : gmap string Common.JSON)
    : Error + BlockOperation * string -> gmap string Common.JSON -> Prop :=
| SaveRejected e :
    SaveOutcome uniqueID1 uniqueID2 bo m (inl e) m
| SavePrimaryOnly e :
    isSaved bo = false ->
    m !! primaryKey bo = None ->
    SaveOutcome uniqueID1 uniqueID2 bo m (inl e) (withPrimary bo m)
| SavePrimaryAndTx e :
    isSaved bo = false ->
    m !! primaryKey bo = None ->
    withPrimary bo m !! NewBlockOperationTxHashKey uniqueID1 bo = None ->
    SaveOutcome uniqueID1 uniqueID2 bo m (inl e) (withTxIndex uniqueID1 bo m)
| SaveDone :
    isSaved bo = false ->
    m !! primaryKey bo = None ->
    withPrimary bo m !! NewBlockOperationTxHashKey uniqueID1 bo = None ->
    withTxIndex uniqueID1 bo m !! NewBlockOperationSourceKey uniqueID2 bo
      = None ->
    SaveOutcome uniqueID1 uniqueID2 bo m
      (inr (set_isSaved true bo, savedEvent (set_isSaved true bo)))
      (withSourceIndex uniqueID1 uniqueID2 bo m).


(** The scenario of the specification: three operations of transaction T
    and source S, at (10, 1), (10, 2) and (11, 1), saved in this order. *)
Definition scenarioOperation (opHash : string) (height sequenceID : Z)
    : BlockOperation :=
  {| Hash := NewBlockOperationKey opHash "T"; OpHash := opHash;
     TxHash := "T"; Type_ := "payment"; Source := "S"; Body := [];
     Height := height;
     transaction :=
       {| Transaction.B := {| Transaction.SequenceID := sequenceID |} |};
     isSaved := false |}.

Definition scenarioStore : LevelDBBackend :=
  let O1 := scenarioOperation "a" 10 1 in
  let O2 := scenarioOperation "b" 10 2 in
  let O3 := scenarioOperation "c" 11 1 in
  (Save "u5" "u6" O3
     (Save "u3" "u4" O2
        (Save "u1" "u2" O1 {| Core := ∅; faults := [] |}).2).2).2.

End IndexModel.

(** ** Hashes without the separator of the record key *)
Module KeysModel.

(** [s] holds no dash. *)
Fixpoint dashFree (s : string) : bool :=
  match s with
  | EmptyString => true
  | String c s' => negb (Ascii.eqb c "-"%char) && dashFree s'
  end.

End KeysModel.

(** ** Ranges of durations *)
Module PacerModel.
Import Time.

(** Durations small enough for the arithmetic of the pacer not to wrap. *)
Definition small (d : Duration) : Prop := - 2 ^ 61 <= d <= 2 ^ 61.

End PacerModel.

(** ** Schedules of the state manager *)
Module Schedules.
Import Time Runner.

Section Collaborators.

Variable Next : Ballot.State -> Ballot.State.
Variable ParseISO8601 : string -> option Time.

(** The loop after the actions of a schedule, if each of them can happen. *)
Fixpoint run (schedule : list (Env * Action)) (l : Loop) : option Loop :=
  match schedule with
  | [] => Some l
  | (env, a) :: rest =>
      match step Next ParseISO8601 env a l with
      | Some l' => run rest l'
      | None => None
      end
  end.

End Collaborators.

(** The states passed to [transitSignal], and the durations slept, in
    program order. *)
Definition signals (effs : list Effect) : list Consensus.ISAACState :=
  omap (fun e => match e with TransitSignal s => Some s | _ => None end) effs.

Definition sleeps (effs : list Effect) : list Duration :=
  omap (fun e => match e with Sleep d => Some d | _ => None end) effs.

(** The heights and rounds that a call passes are between 0 and [b]. *)
Definition callWithin (b : Z) (a : Action) : Prop :=
  match a with
  | CallTransitISAACState height round _ =>
      (0 <= height <= b)%Z /\ (0 <= round <= b)%Z
  | _ => True
  end.

Definition stateWithin (b : Z) (s : Consensus.ISAACState) : Prop :=
  (0 <= Consensus.Height s <= b)%Z /\ (0 <= Consensus.Round s <= b)%Z.

(** The loop has something to wake it: heights and rounds are within [b],
    and whenever the timer is not armed, and whenever the state is
    ALLCONFIRM, a transition waits in the channel. *)
Definition Awake (b : Z) (l : Loop) : Prop :=
  stateWithin b (State (sm l))
  /\ Forall (stateWithin b) (stateTransit (sm l))
  /\ (timer l = None -> stateTransit (sm l) <> [])
  /\ (Consensus.BallotState (State (sm l)) = Ballot.StateALLCONFIRM ->
      stateTransit (sm l) <> []).

(** A node that is its own proposer, and a schedule that takes it through
    a round: INIT, SIGN, ACCEPT, a timeout in ACCEPT, the next round. *)
Definition exampleConf : Config :=
  {| BlockTime := 5 * Second; TimeoutINIT := 2 * Second;
     TimeoutSIGN := 3 * Second; TimeoutACCEPT := 4 * Second |}.

Definition exampleEnv : Env :=
  {| nr := {| LatestBlock :=
                {| LatestBlock.Height := 1; LatestBlock.Hash := "h1";
                   LatestBlock.TotalTxs := 0; LatestBlock.TotalOps := 0;
                   LatestBlock.Confirmed := "" |};
              SelectProposer := fun _ _ => "n0"%string;
              localNodeAddress := "n0" |};
     Now := fun _ => 30 * Second |}.

Definition exampleSchedule : list (Env * Action) :=
  [(exampleEnv, CallTransitISAACState 2 0 Ballot.StateINIT);
   (exampleEnv, LoopEvent (Received 0));
   (exampleEnv, CallTransitISAACState 2 0 Ballot.StateSIGN);
   (exampleEnv, LoopEvent (Received 0));
   (exampleEnv, CallTransitISAACState 2 0 Ballot.StateACCEPT);
   (exampleEnv, LoopEvent (Received 0));
   (exampleEnv, LoopEvent TimerFired);
   (exampleEnv, LoopEvent (Received 0))].

End Schedules.

(** * Properties *)

(** ** Machine integers and durations *)
Module IntFacts.
Import Int.

Lemma wrapInt64_range z : is_int64 (wrapInt64 z).
Proof.
  unfold is_int64, wrapInt64, MinInt64, MaxInt64, two63, two64.
  pose proof (Z.mod_pos_bound (z + 2 ^ 63) (2 ^ 64) ltac:(lia)). lia.
Qed.

Lemma wrapInt64_id z : is_int64 z -> wrapInt64 z = z.
Proof.
  unfold is_int64, wrapInt64, MinInt64, MaxInt64, two63, two64. intros H.
  rewrite Z.mod_small by lia. lia.
Qed.

(** Wrapping an intermediate result does not change the wrapped result. *)
Lemma wrapInt64_sub_l a b : wrapInt64 (wrapInt64 a - b) = wrapInt64 (a - b).
Proof.
  unfold wrapInt64, two63, two64. f_equal.
  replace ((a + 2 ^ 63) mod 2 ^ 64 - 2 ^ 63 - b + 2 ^ 63)
    with ((a + 2 ^ 63) mod 2 ^ 64 + (- b)) by lia.
  rewrite Zplus_mod_idemp_l. f_equal. lia.
Qed.

Lemma sub64_exact a b : is_int64 (a - b) -> sub64 a b = a - b.
Proof. apply wrapInt64_id. Qed.

Lemma sub64_sub64_exact a b c :
  is_int64 (a - b - c) -> sub64 (sub64 a b) c = a - b - c.
Proof.
  intros H. unfold sub64. rewrite wrapInt64_sub_l. by apply wrapInt64_id.
Qed.

Lemma sub64_add64_exact a b c :
  is_int64 (a + b - c) -> sub64 (add64 a b) c = a + b - c.
Proof.
  intros H. unfold sub64, add64. rewrite wrapInt64_sub_l. by apply wrapInt64_id.
Qed.

Lemma wrapUint64_id z : is_uint64 z -> wrapUint64 z = z.
Proof.
  unfold is_uint64, wrapUint64, MaxUint64, two64. intros H.
  apply Z.mod_small. lia.
Qed.

(** Dividing by a positive number stays between zero and the dividend. *)
Lemma quot_pos_bound s d :
  0 < d -> Z.min 0 s <= Z.quot s d <= Z.max 0 s.
Proof.
  intros Hd. destruct (Z_le_gt_dec 0 s) as [Hs | Hs].
  - pose proof (Z.quot_pos s d Hs Hd).
    assert (Z.quot s d <= s); [| lia].
    rewrite Z.quot_div_nonneg by lia.
    apply Z.div_le_upper_bound; [lia |].
    pose proof (Z.mul_le_mono_nonneg_r 1 d s Hs ltac:(lia)). lia.
  - assert (Hq : Z.quot s d = - Z.quot (- s) d).
    { rewrite <- Z.quot_opp_l by lia. f_equal. lia. }
    rewrite Hq.
    pose proof (Z.quot_pos (- s) d ltac:(lia) Hd).
    assert (Z.quot (- s) d <= - s); [| lia].
    rewrite Z.quot_div_nonneg by lia.
    apply Z.div_le_upper_bound; [lia |].
    pose proof (Z.mul_le_mono_nonneg_r 1 d (- s) ltac:(lia) ltac:(lia)). lia.
Qed.

Lemma quo64_pos s d : is_int64 s -> 0 < d -> quo64 s d = Z.quot s d.
Proof.
  intros Hs Hd. apply wrapInt64_id.
  pose proof (quot_pos_bound s d Hd).
  unfold is_int64, MinInt64, MaxInt64, two63 in *. lia.
Qed.

Lemma Sub_range t u : is_int64 (Time.Sub t u).
Proof.
  unfold Time.Sub, is_int64, MinInt64, MaxInt64, two63. lia.
Qed.

End IntFacts.

(** ** The block-time pacer *)
Module Pacer.
Import Int Time Runner IntFacts.

Lemma clamp_max b : (if b <? 0 then 0 else b) = Z.max 0 b.
Proof. destruct (Z.ltb_spec b 0); lia. Qed.

Lemma calculateBlockTimeBuffer_nonneg goal average untilNow delta :
  0 <= calculateBlockTimeBuffer goal average untilNow delta.
Proof. unfold calculateBlockTimeBuffer. cbv zeta. rewrite clamp_max. lia. Qed.

(** The deadband branch: the average is within [epsilon] of the goal. *)
Lemma calculateBlockTimeBuffer_deadband goal average untilNow delta :
  Z.abs (average - goal) < 50 * Millisecond ->
  is_int64 (goal - untilNow) ->
  calculateBlockTimeBuffer goal average untilNow delta
  = Z.max 0 (goal - untilNow).
Proof.
  intros Habs Hr. unfold calculateBlockTimeBuffer. cbv zeta.
  rewrite clamp_max. f_equal.
  assert (is_int64 (average - goal) /\ is_int64 (goal - average)) as [H1 H2].
  { unfold is_int64, MinInt64, MaxInt64, two63, Millisecond in *. lia. }
  rewrite (sub64_exact average goal H1), (sub64_exact goal average H2).
  destruct (Z.geb_spec average goal);
    [destruct (Z.ltb_spec (average - goal) (50 * Millisecond))
    | destruct (Z.ltb_spec (goal - average) (50 * Millisecond))];
    try lia; by apply sub64_exact.
Qed.

(** The average is above the goal by [epsilon] or more: speed up. *)
Lemma calculateBlockTimeBuffer_above goal average untilNow delta :
  average - goal >= 50 * Millisecond ->
  is_int64 (average - goal) ->
  is_int64 (goal - delta - untilNow) ->
  calculateBlockTimeBuffer goal average untilNow delta
  = Z.max 0 (goal - delta - untilNow).
Proof.
  intros Hge H1 Hr. unfold calculateBlockTimeBuffer. cbv zeta.
  rewrite clamp_max. f_equal.
  rewrite (sub64_exact average goal H1).
  unfold Millisecond in *.
  destruct (Z.geb_spec average goal); [| lia].
  destruct (Z.ltb_spec (average - goal) (50 * 1000000)); [lia |].
  by apply sub64_sub64_exact.
Qed.

(** The average is below the goal by [epsilon] or more: slow down. *)
Lemma calculateBlockTimeBuffer_below goal average untilNow delta :
  goal - average >= 50 * Millisecond ->
  is_int64 (goal - average) ->
  is_int64 (goal + delta - untilNow) ->
  calculateBlockTimeBuffer goal average untilNow delta
  = Z.max 0 (goal + delta - untilNow).
Proof.
  intros Hge H1 Hr. unfold calculateBlockTimeBuffer. cbv zeta.
  rewrite clamp_max. f_equal.
  rewrite (sub64_exact goal average H1).
  unfold Millisecond in *.
  destruct (Z.geb_spec average goal); [lia |].
  destruct (Z.ltb_spec (goal - average) (50 * 1000000)); [lia |].
  by apply sub64_add64_exact.
Qed.

(** C2 (as amended). With delta = 1s and epsilon = 50ms, and as long as the
    difference of average and goal and the selected expression fit in an
    int64: the buffer is max(0, goal - untilNow) in the deadband,
    max(0, goal - delta - untilNow) when the average exceeds the goal by
    epsilon or more, and max(0, goal + delta - untilNow) when it falls short
    of it by epsilon or more. The buffer is never negative, and it is the
    goal when average = goal, untilNow = 0 and the goal is not negative. *)
Theorem calculateBlockTimeBuffer_spec (goal average untilNow : Duration) :
  is_int64 goal -> is_int64 average -> is_int64 untilNow ->
  let delta := 1 * Second in
  let epsilon := 50 * Millisecond in
  let buffer := calculateBlockTimeBuffer goal average untilNow delta in
  (Z.abs (average - goal) < epsilon ->
   is_int64 (goal - untilNow) ->
   buffer = Z.max 0 (goal - untilNow)) /\
  (average - goal >= epsilon ->
   is_int64 (average - goal) -> is_int64 (goal - delta - untilNow) ->
   buffer = Z.max 0 (goal - delta - untilNow)) /\
  (goal - average >= epsilon ->
   is_int64 (goal - average) -> is_int64 (goal + delta - untilNow) ->
   buffer = Z.max 0 (goal + delta - untilNow)) /\
  0 <= buffer /\
  (average = goal -> untilNow = 0 -> 0 <= goal -> buffer = goal).
Proof.
  intros Hg Ha Hu delta epsilon buffer. subst delta epsilon buffer.
  split; [apply calculateBlockTimeBuffer_deadband |].
  split; [apply calculateBlockTimeBuffer_above |].
  split; [apply calculateBlockTimeBuffer_below |].
  split; [apply calculateBlockTimeBuffer_nonneg |].
  intros -> -> Hpos.
  rewrite calculateBlockTimeBuffer_deadband.
  - lia.
  - unfold Millisecond. lia.
  - by rewrite Z.sub_0_r.
Qed.

(** The scenario of the specification: goal 5s, delta 1s; an average of
    5.02s, 6s and 4s after 1s; and 10s elapsed. *)
Lemma calculateBlockTimeBuffer_spec_witness :
  calculateBlockTimeBuffer (5 * Second) (5020 * Millisecond) (1 * Second)
    (1 * Second) = 4 * Second
  /\ calculateBlockTimeBuffer (5 * Second) (6 * Second) (1 * Second)
       (1 * Second) = 3 * Second
  /\ calculateBlockTimeBuffer (5 * Second) (4 * Second) (1 * Second)
       (1 * Second) = 5 * Second
  /\ calculateBlockTimeBuffer (5 * Second) (5 * Second) (10 * Second)
       (1 * Second) = 0
  /\ calculateBlockTimeBuffer (5 * Second) (5 * Second) 0 (1 * Second)
     = 5 * Second.
Proof.
  assert (Hr : forall z, - 2 ^ 62 <= z <= 2 ^ 62 -> is_int64 z).
  { intros z Hz. unfold is_int64, MinInt64, MaxInt64, two63. lia. }
  refine (conj _ (conj _ (conj _ (conj _ _)))).
  - destruct (calculateBlockTimeBuffer_spec (5 * Second) (5020 * Millisecond)
                (1 * Second)) as (H & _);
      [apply Hr; vm_compute; split; discriminate ..|].
    rewrite H; [reflexivity | reflexivity |].
    apply Hr; vm_compute; split; discriminate.
  - destruct (calculateBlockTimeBuffer_spec (5 * Second) (6 * Second)
                (1 * Second)) as (_ & H & _);
      [apply Hr; vm_compute; split; discriminate ..|].
    rewrite H; [reflexivity | vm_compute; discriminate | |];
      apply Hr; vm_compute; split; discriminate.
  - destruct (calculateBlockTimeBuffer_spec (5 * Second) (4 * Second)
                (1 * Second)) as (_ & _ & H & _);
      [apply Hr; vm_compute; split; discriminate ..|].
    rewrite H; [reflexivity | vm_compute; discriminate | |];
      apply Hr; vm_compute; split; discriminate.
  - destruct (calculateBlockTimeBuffer_spec (5 * Second) (5 * Second)
                (10 * Second)) as (H & _);
      [apply Hr; vm_compute; split; discriminate ..|].
    rewrite H; [reflexivity | reflexivity |].
    apply Hr; vm_compute; split; discriminate.
  - destruct (calculateBlockTimeBuffer_spec (5 * Second) (5 * Second) 0)
      as (_ & _ & _ & _ & H);
      [apply Hr; vm_compute; split; discriminate ..|].
    apply H; [reflexivity | reflexivity | vm_compute; discriminate].
Defined.

(** C2 (as stated) fails. With a positive goal of 5s and an average at the
    least duration, goal - average is at least epsilon, but the subtraction
    wraps and the deadband branch is taken: the buffer is 5s, not
    goal + delta - untilNow = 6s. And with average = goal = -1ns and
    untilNow = 0 the buffer is 0, not the goal. *)
Lemma calculateBlockTimeBuffer_counterexample :
  (is_int64 MinInt64
   /\ 5 * Second - MinInt64 >= 50 * Millisecond
   /\ calculateBlockTimeBuffer (5 * Second) MinInt64 0 (1 * Second)
      = 5 * Second
   /\ 5 * Second <> Z.max 0 (5 * Second + 1 * Second - 0))
  /\ (calculateBlockTimeBuffer (-1) (-1) 0 (1 * Second) = 0
      /\ 0 <> -1).
Proof. vm_compute. repeat split; discriminate. Qed.

Lemma usub64_one blockHeight :
  1 <= blockHeight <= MaxUint64 -> usub64 blockHeight 1 = blockHeight - 1.
Proof.
  intros H. apply wrapUint64_id. unfold is_uint64, MaxUint64, two64 in *. lia.
Qed.

(** C8 (as amended). For every block height from 1 to 2^63, the average is
    the time elapsed since genesis divided (as Go divides, towards zero) by
    max(1, blockHeight - 1); at height 1 it is the elapsed time itself, and
    at height 2 the same value divided by 1. *)
Theorem calculateAverageBlockTime_spec (now genesis : Time) (blockHeight : Z) :
  1 <= blockHeight <= two63 ->
  calculateAverageBlockTime now genesis blockHeight
  = Z.quot (Sub now genesis) (Z.max 1 (blockHeight - 1))
  /\ calculateAverageBlockTime now genesis 1 = Sub now genesis
  /\ calculateAverageBlockTime now genesis 2 = Z.quot (Sub now genesis) 1.
Proof.
  assert (Hgen : forall h, 1 <= h <= two63 ->
            calculateAverageBlockTime now genesis h
            = Z.quot (Sub now genesis) (Z.max 1 (h - 1))).
  { intros h Hh. unfold calculateAverageBlockTime. cbv zeta.
    rewrite usub64_one by (unfold MaxUint64, two64, two63 in *; lia).
    destruct (Z.eqb_spec (h - 1) 0) as [E | E].
    - rewrite E. simpl. by rewrite Z.quot_1_r.
    - assert (Hi : is_int64 (h - 1)).
      { unfold is_int64, MinInt64, MaxInt64, two63 in *. lia. }
      unfold int64_of_uint64. rewrite (wrapInt64_id _ Hi).
      rewrite Z.max_r by lia.
      apply quo64_pos; [apply Sub_range | lia]. }
  intros Hh. split; [by apply Hgen |]. split.
  - rewrite Hgen by (unfold two63; lia). simpl. by rewrite Z.quot_1_r.
  - rewrite Hgen by (unfold two63; lia). reflexivity.
Qed.

(** Height 3, 10s after genesis: two block intervals of 5s. *)
Lemma calculateAverageBlockTime_spec_witness :
  calculateAverageBlockTime (10 * Second) 0 3 = 5 * Second.
Proof.
  destruct (calculateAverageBlockTime_spec (10 * Second) 0 3) as [H _].
  - vm_compute. split; discriminate.
  - rewrite H. reflexivity.
Defined.

(** C8 (as stated) fails at the greatest block height: blockHeight - 1 is
    2^64 - 2, which the conversion to a duration turns into -2, so that 10ns
    since genesis give an average of -5ns and not 10 / (2^64 - 2) = 0. *)
Lemma calculateAverageBlockTime_counterexample :
  MaxUint64 >= 1
  /\ calculateAverageBlockTime 10 0 MaxUint64 = -5
  /\ Z.quot (Sub 10 0) (Z.max 1 (MaxUint64 - 1)) = 0.
Proof. vm_compute. repeat split; discriminate. Qed.

(** C9 (as amended). At block height 0 the unsigned subtraction wraps to
    2^64 - 1, and the conversion to a duration turns that into -1: the
    function divides the time elapsed since genesis by -1 and returns its
    negation (which, for the least duration, is that duration again). *)
Theorem calculateAverageBlockTime_height_0 (now genesis : Time) :
  usub64 0 1 = MaxUint64
  /\ int64_of_uint64 MaxUint64 = -1
  /\ calculateAverageBlockTime now genesis 0
     = quo64 (Sub now genesis) (-1)
  /\ calculateAverageBlockTime now genesis 0
     = if Sub now genesis =? MinInt64 then MinInt64 else - Sub now genesis.
Proof.
  assert (Hcalc : calculateAverageBlockTime now genesis 0
                  = quo64 (Sub now genesis) (-1)) by reflexivity.
  split; [reflexivity |]. split; [reflexivity |]. split; [exact Hcalc |].
  rewrite Hcalc. unfold quo64.
  assert (Hq : Z.quot (Sub now genesis) (-1) = - Sub now genesis).
  { exact (eq_trans (Z.quot_opp_r (Sub now genesis) 1 ltac:(lia))
                    (f_equal Z.opp (Z.quot_1_r _))). }
  rewrite Hq. pose proof (Sub_range now genesis) as Hr.
  destruct (Z.eqb_spec (Sub now genesis) MinInt64) as [E | E].
  - rewrite E. reflexivity.
  - apply wrapInt64_id.
    unfold is_int64, MinInt64, MaxInt64, two63 in *. lia.
Qed.

(** C9 (as stated) fails: 10s after genesis, at block height 0, the result
    is -10s, whereas dividing by 2^64 - 1 would give 0. *)
Lemma calculateAverageBlockTime_height_0_counterexample :
  calculateAverageBlockTime (10 * Second) 0 0 = - (10 * Second)
  /\ Z.quot (Sub (10 * Second) 0) (2 ^ 64 - 1) = 0.
Proof. vm_compute. split; reflexivity. Qed.

End Pacer.

(** ** The state manager *)
Module Manager.
Import Int Time Runner IntFacts.

Section Collaborators.

Variable Next : Ballot.State -> Ballot.State.
Variable ParseISO8601 : string -> option Time.

Lemma set_stateTransit_neq q sm :
  q <> stateTransit sm -> set_stateTransit q sm <> sm.
Proof. intros Hq Heq. apply Hq. by apply (f_equal stateTransit) in Heq. Qed.

(** C4. [TransitISAACState] sends the target to the transition channel if
    and only if the target is later than the current state; when it is not,
    the manager is left as it was. The call always returns, and in neither
    case does it change the current state or anything else of the manager or
    of the running loop. *)
Theorem TransitISAACState_gate (height round : Z) (ballotState : Ballot.State)
    (sm : ISAACStateManager) (env : Env) (l : Loop) :
  let target := {| Consensus.Height := height; Consensus.Round := round;
                   Consensus.BallotState := ballotState |} in
  let sm' := TransitISAACState height round ballotState sm in
  (Consensus.IsLater (State sm) target = true
   <-> stateTransit sm' = stateTransit sm ++ [target])
  /\ (Consensus.IsLater (State sm) target = false <-> sm' = sm)
  /\ State sm' = State sm
  /\ stop sm' = stop sm
  /\ blockTimeBuffer sm' = blockTimeBuffer sm
  /\ step Next ParseISO8601 env
       (CallTransitISAACState height round ballotState) l
     = Some {| Runner.sm :=
                 TransitISAACState height round ballotState (Runner.sm l);
               timer := timer l; running := running l;
               effects := effects l |}.
Proof.
  intros target sm'. subst sm'. unfold TransitISAACState, State.
  fold target. destruct (Consensus.IsLater (state sm) target) eqn:E.
  - repeat split; try done.
    intros Heq. apply set_stateTransit_neq in Heq; [done |].
    intros Hq. apply (f_equal length) in Hq.
    rewrite length_app in Hq. simpl in Hq. lia.
  - repeat split; try done.
    intros Hq. apply (f_equal length) in Hq.
    rewrite length_app in Hq. simpl in Hq. lia.
Qed.

Lemma IsLater_next_round (s : Consensus.ISAACState) (b : Ballot.State) :
  Consensus.IsLater s
    {| Consensus.Height := Consensus.Height s;
       Consensus.Round := Consensus.Round s + 1;
       Consensus.BallotState := b |} = true.
Proof.
  unfold Consensus.IsLater. simpl. rewrite Z.eqb_refl. simpl.
  destruct (Z.eqb_spec (Consensus.Round s) (Consensus.Round s + 1)); [lia |].
  simpl. apply Z.ltb_lt. lia.
Qed.


End Collaborators.


(** C1 fails on the code. At (5, 2, SIGN) two calls of [TransitISAACState],
    for (6, 0, INIT) and for (5, 3, INIT), both pass the gate, since each
    target is later than the state read at the call. The loop then receives
    them in the order of the calls and adopts each without comparing it with
    the state it holds: [State()] goes from (6, 0, INIT) back to
    (5, 3, INIT), which is neither later than nor equal to it. *)
Theorem state_regresses (Next : Ballot.State -> Ballot.State)
    (ParseISO8601 : string -> option Time) :
  let conf := {| BlockTime := 5 * Second; TimeoutINIT := 2 * Second;
                 TimeoutSIGN := 3 * Second; TimeoutACCEPT := 4 * Second |} in
  let env := {| nr := {| LatestBlock :=
                           {| LatestBlock.Height := 5;
                              LatestBlock.Hash := "h5";
                              LatestBlock.TotalTxs := 0;
                              LatestBlock.TotalOps := 0;
                              LatestBlock.Confirmed := "" |};
                         SelectProposer := fun _ _ => "n1"%string;
                         localNodeAddress := "n0" |};
                Now := fun _ => 30 * Second |} in
  let s0 := {| Consensus.Height := 5; Consensus.Round := 2;
               Consensus.BallotState := Ballot.StateSIGN |} in
  let t1 := {| Consensus.Height := 6; Consensus.Round := 0;
               Consensus.BallotState := Ballot.StateINIT |} in
  let t2 := {| Consensus.Height := 5; Consensus.Round := 3;
               Consensus.BallotState := Ballot.StateINIT |} in
  let l0 := Start (set_state s0 (NewISAACStateManager 0 conf)) in
  let schedule :=
    [(env, CallTransitISAACState 6 0 Ballot.StateINIT);
     (env, CallTransitISAACState 5 3 Ballot.StateINIT);
     (env, LoopEvent (Received 0));
     (env, LoopEvent (Received 0))] in
  Consensus.IsLater s0 t1 = true
  /\ Consensus.IsLater s0 t2 = true
  /\ observe Next ParseISO8601 schedule l0 = [s0; s0; s0; t1; t2]
  /\ Consensus.IsLater t1 t2 = false
  /\ t1 <> t2
  /\ monotone (observe Next ParseISO8601 schedule l0) = false.
Proof.
  intros conf env s0 t1 t2 l0 schedule.
  assert (Hobs : observe Next ParseISO8601 schedule l0 = [s0; s0; s0; t1; t2])
    by reflexivity.
  rewrite Hobs. repeat split; try reflexivity. discriminate.
Qed.

End Manager.

(** ** Keys as byte strings *)
Module Keys.

Local Open Scope string_scope.

Lemma ascii_compare_refl c : Ascii.compare c c = Eq.
Proof. unfold Ascii.compare. apply N.compare_refl. Qed.

Lemma compare_refl s : String.compare s s = Eq.
Proof.
  induction s as [| c s IH]; simpl; [done |]. by rewrite ascii_compare_refl.
Qed.

(** A common prefix does not take part in the comparison. *)
Lemma compare_app p a b :
  String.compare (p ++ a) (p ++ b) = String.compare a b.
Proof.
  induction p as [| c p IH]; simpl; [done |]. by rewrite ascii_compare_refl.
Qed.

Lemma compare_trans_Lt a b c :
  String.compare a b = Lt -> String.compare b c = Lt ->
  String.compare a c = Lt.
Proof.
  revert b c. induction a as [| x a IH]; intros [| y b] [| z c]; simpl;
    try done.
  unfold Ascii.compare.
  destruct (N.compare_spec (N_of_ascii x) (N_of_ascii y)) as [E1 | L1 | G1];
    destruct (N.compare_spec (N_of_ascii y) (N_of_ascii z)) as [E2 | L2 | G2];
    try done; intros H1 H2.
  - rewrite E1, E2, N.compare_refl. eauto.
  - rewrite E1. by apply N.compare_lt_iff in L2 as ->.
  - rewrite <- E2. by apply N.compare_lt_iff in L1 as ->.
  - assert (N_of_ascii x < N_of_ascii z)%N as L by lia.
    by apply N.compare_lt_iff in L as ->.
Qed.

Lemma leb_refl s : String.leb s s = true.
Proof. unfold String.leb. by rewrite compare_refl. Qed.

Lemma leb_cases a b :
  String.leb a b = true -> a = b \/ String.compare a b = Lt.
Proof.
  unfold String.leb. destruct (String.compare a b) eqn:E; try done.
  - left. by apply String.compare_eq_iff.
  - by right.
Qed.

Lemma leb_trans a b c :
  String.leb a b = true -> String.leb b c = true -> String.leb a c = true.
Proof.
  intros [-> | H1]%leb_cases [-> | H2]%leb_cases.
  - apply leb_refl.
  - unfold String.leb. by rewrite H2.
  - unfold String.leb. by rewrite H1.
  - unfold String.leb. by rewrite (compare_trans_Lt a b c).
Qed.



Lemma prefix_nil s : String.prefix "" s = true.
Proof. by destruct s. Qed.

Lemma prefix_app p s : String.prefix p (p ++ s) = true.
Proof.
  induction p as [| c p IH]; simpl; [apply prefix_nil |].
  by destruct (ascii_dec c c).
Qed.

Lemma append_cons (x : ascii) (a b : string) :
  String x a ++ b = String x (a ++ b).
Proof. reflexivity. Qed.

(** *** The big-endian encoding *)








End Keys.

(** ** The block-operation index *)
Module Index.
Import Errors Storage Block IndexModel.

Local Open Scope string_scope.

Lemma bind_inv {A B : Type} (m : M A) (k : A -> M B) st r st' :
  bind m k st = (r, st') ->
  (exists e, m st = (inl e, st') /\ r = inl e)
  \/ (exists a st1, m st = (inr a, st1) /\ k a st1 = (r, st')).
Proof.
  unfold bind. destruct (m st) as [[e | a] st1]; intros H.
  - left. exists e. by simplify_eq.
  - right. by exists a, st1.
Qed.

Lemma engine_Core st r st' : engine st = (r, st') -> Core st' = Core st.
Proof.
  unfold engine. destruct (faults st) as [| [e |] fs]; intros H;
    by simplify_eq.
Qed.

Lemma Has_inv key st r st' :
  Has key st = (r, st') ->
  Core st' = Core st
  /\ ((exists e, r = inl e)
      \/ r = inr (bool_decide (is_Some (Core st !! key)))).
Proof.
  unfold Has. intros [(e & He & ->) | ([] & st1 & He & Hk)]%bind_inv.
  - split; [by eapply engine_Core | by eauto].
  - apply engine_Core in He. simplify_eq. rewrite He. by eauto.
Qed.

Lemma New_inv key v st r st' :
  New key v st = (r, st') ->
  ((exists e, r = inl e) /\ Core st' = Core st)
  \/ (r = inr tt /\ Core st !! key = None
      /\ Core st' = <[key := v]> (Core st)).
Proof.
  unfold New. intros [(e & He & ->) | ([] & st1 & He & Hk)]%bind_inv.
  - left. split; [by eauto | by eapply engine_Core].
  - apply engine_Core in He. rewrite <- He.
    destruct (Core st1 !! key) eqn:E; simplify_eq; simpl; by eauto.
Qed.

Lemma Save_outcome uniqueID1 uniqueID2 bo st r st' :
  Save uniqueID1 uniqueID2 bo st = (r, st') ->
  SaveOutcome uniqueID1 uniqueID2 bo (Core st) r (Core st').
Proof.
  unfold Save. destruct (isSaved bo) eqn:Hsaved.
  { unfold fail. intros ?. simplify_eq. constructor. }
  intros [(e & HHas & ->) | (b & st1 & HHas & H1)]%bind_inv;
    apply Has_inv in HHas as [Hc1 Hb].
  { rewrite Hc1. constructor. }
  destruct Hb as [[e ?] | Hb]; [done |]. simplify_eq.
  case_bool_decide as Hin.
  { unfold fail in H1. simplify_eq. rewrite Hc1. constructor. }
  apply eq_None_not_Some in Hin. rewrite <- Hc1 in Hin.
  apply bind_inv in H1 as [(e & HNew & ->) | ([] & st2 & HNew & H2)].
  { apply New_inv in HNew as [[_ Hc2] | (? & _)]; [| done].
    rewrite Hc2, Hc1. constructor. }
  apply New_inv in HNew as [[[e' ?] _] | (_ & _ & Hc2)]; [done |].
  rewrite Hc1 in Hc2, Hin.
  apply bind_inv in H2 as [(e & HNew & ->) | ([] & st3 & HNew & H3)].
  { apply New_inv in HNew as [[_ Hc3] | (? & _)]; [| done].
    rewrite Hc3, Hc2. by apply SavePrimaryOnly. }
  apply New_inv in HNew as [[[e' ?] _] | (_ & Hf3 & Hc3)]; [done |].
  rewrite Hc2 in Hc3, Hf3.
  apply bind_inv in H3 as [(e & HNew & ->) | ([] & st4 & HNew & H4)].
  { apply New_inv in HNew as [[_ Hc4] | (? & _)]; [| done].
    rewrite Hc4, Hc3. by apply SavePrimaryAndTx. }
  apply New_inv in HNew as [[[e' ?] _] | (_ & Hf4 & Hc4)]; [done |].
  rewrite Hc3 in Hc4, Hf4. unfold ret in H4. simplify_eq.
  rewrite Hc4. by apply SaveDone.
Qed.

(** *** Rejected saves *)

Lemma Save_AlreadySaved uniqueID1 uniqueID2 bo st :
  isSaved bo = true ->
  Save uniqueID1 uniqueID2 bo st = (inl AlreadySaved, st).
Proof. intros H. unfold Save. by rewrite H. Qed.

Lemma Save_present uniqueID1 uniqueID2 bo st :
  isSaved bo = false ->
  is_Some (Core st !! primaryKey bo) ->
  Save uniqueID1 uniqueID2 bo st
  = (inl (default BlockAlreadyExists (engineFails st)), (engine st).2).
Proof.
  intros Hs Hin. unfold Save. rewrite Hs.
  unfold bind at 1. unfold Has, bind, engine, engineFails.
  destruct st as [m [| [e |] fs]]; simpl in *; try done;
    by rewrite bool_decide_true.
Qed.

(** C5. [Save] fails with AlreadySaved when the record's [isSaved] flag is
    set, before it looks at the store. When the flag is not set and the
    primary key of the record is in the store, it fails after the [Has]
    call: with BlockAlreadyExists when the engine answers that call (and
    otherwise with the engine's error). In both cases nothing is written:
    the content of the store is as before. *)
Theorem Save_rejected (uniqueID1 uniqueID2 : string) (bo : BlockOperation)
    (st : LevelDBBackend) :
  (isSaved bo = true ->
   Save uniqueID1 uniqueID2 bo st = (inl AlreadySaved, st))
  /\ (isSaved bo = false ->
      is_Some (Core st !! GetBlockOperationKey (Hash bo)) ->
      exists e st',
        Save uniqueID1 uniqueID2 bo st = (inl e, st')
        /\ Core st' = Core st
        /\ (engineFails st = None -> e = BlockAlreadyExists)
        /\ (e = BlockAlreadyExists \/ engineFails st = Some e)).
Proof.
  split; [apply Save_AlreadySaved |]. intros Hs Hin.
  eexists _, _. split; [by apply Save_present |].
  split; [by eapply engine_Core, surjective_pairing |].
  destruct (engineFails st) as [e |]; simpl; split; by eauto.
Qed.

(** The scenario of a duplicate save: after a first save, saving the
    record that [Save] returned fails with AlreadySaved, and saving a second
    record with the same hash fails with BlockAlreadyExists. *)
Lemma Save_rejected_witness :
  let bo := {| Hash := "a-T"; OpHash := "a"; TxHash := "T";
               Type_ := "payment"; Source := "S"; Body := [];
               Height := 10;
               transaction :=
                 {| Transaction.B := {| Transaction.SequenceID := 1 |} |};
               isSaved := false |} in
  let st1 := (Save "u1" "u2" bo {| Core := ∅; faults := [] |}).2 in
  Save "u3" "u4" (set_isSaved true bo) st1 = (inl AlreadySaved, st1)
  /\ exists st',
       Save "u3" "u4" bo st1 = (inl BlockAlreadyExists, st')
       /\ Core st' = Core st1.
Proof.
  intros bo st1. split.
  - destruct (Save_rejected "u3" "u4" (set_isSaved true bo) st1) as [H _].
    apply H. reflexivity.
  - destruct (Save_rejected "u3" "u4" bo st1) as [_ H].
    destruct (H eq_refl) as (e & st' & HSave & HCore & He & _).
    { exists (Serialize bo). vm_compute. reflexivity. }
    exists st'. rewrite <- (He eq_refl). split; [exact HSave | exact HCore].
Defined.

(** *** Saves that stop half-way *)

Lemma key_tags uniqueID bo :
  String.get 3 (primaryKey bo) = Some "h"%char
  /\ String.get 3 (NewBlockOperationTxHashKey uniqueID bo) = Some "t"%char
  /\ String.get 3 (NewBlockOperationSourceKey uniqueID bo) = Some "s"%char.
Proof. done. Qed.

Lemma primaryKey_ne_tx uniqueID bo bo' :
  NewBlockOperationTxHashKey uniqueID bo <> primaryKey bo'.
Proof.
  intros H. pose proof (key_tags uniqueID bo) as (_ & Ht & _).
  pose proof (key_tags uniqueID bo') as (Hh & _). congruence.
Qed.

Lemma primaryKey_ne_source uniqueID bo bo' :
  NewBlockOperationSourceKey uniqueID bo <> primaryKey bo'.
Proof.
  intros H. pose proof (key_tags uniqueID bo) as (_ & _ & Ht).
  pose proof (key_tags uniqueID bo') as (Hh & _). congruence.
Qed.

Lemma tx_ne_source uniqueID uniqueID' bo bo' :
  NewBlockOperationTxHashKey uniqueID bo
  <> NewBlockOperationSourceKey uniqueID' bo'.
Proof.
  intros H. pose proof (key_tags uniqueID bo) as (_ & Ht & _).
  pose proof (key_tags uniqueID' bo') as (_ & _ & Hs). congruence.
Qed.

Lemma Save_fails_at_tx uniqueID1 uniqueID2 bo m e fs :
  isSaved bo = false ->
  m !! primaryKey bo = None ->
  Save uniqueID1 uniqueID2 bo
    {| Core := m; faults := None :: None :: Some e :: fs |}
  = (inl e, {| Core := withPrimary bo m; faults := fs |}).
Proof.
  intros Hs Hpk. unfold Save. rewrite Hs.
  unfold bind at 1. unfold Has, bind at 1. simpl.
  rewrite bool_decide_false by (fold (primaryKey bo); rewrite Hpk; by inv 1).
  unfold bind at 1. unfold New at 1, bind at 1. simpl.
  fold (primaryKey bo). rewrite Hpk. reflexivity.
Qed.

Lemma Save_fails_at_source uniqueID1 uniqueID2 bo m e fs :
  isSaved bo = false ->
  m !! primaryKey bo = None ->
  m !! NewBlockOperationTxHashKey uniqueID1 bo = None ->
  Save uniqueID1 uniqueID2 bo
    {| Core := m; faults := None :: None :: None :: Some e :: fs |}
  = (inl e, {| Core := withTxIndex uniqueID1 bo m; faults := fs |}).
Proof.
  intros Hs Hpk Htk. unfold Save. rewrite Hs.
  unfold bind at 1. unfold Has, bind at 1. simpl.
  rewrite bool_decide_false by (fold (primaryKey bo); rewrite Hpk; by inv 1).
  unfold bind at 1. unfold New at 1, bind at 1. simpl.
  fold (primaryKey bo). rewrite Hpk.
  unfold bind at 1. unfold New at 1, bind at 1. simpl.
  fold (primaryKey bo).
  rewrite lookup_insert_ne by (symmetry; apply primaryKey_ne_tx).
  rewrite Htk. reflexivity.
Qed.

(** C10. Let the record be unsaved and its primary key absent, and let the
    engine answer [Has] and the write of the primary record. If it then
    fails the write of the tx-index entry with [e], [Save] returns [e] and
    the store holds the primary record and neither index entry of this
    call. If it fails the write of the source-index entry instead, [Save]
    returns [e] and the store holds the primary record and the tx-index
    entry, but no source-index entry of this call. In both cases the record
    is not marked as saved ([Save] returns no updated record), and every
    later [Save] of it fails and writes nothing: with BlockAlreadyExists
    when the engine answers the [Has] call. *)
Theorem Save_not_atomic (uniqueID1 uniqueID2 : string) (bo : BlockOperation)
    (m : gmap string Common.JSON) (e : Error) (fs : list (option Error)) :
  isSaved bo = false ->
  m !! GetBlockOperationKey (Hash bo) = None ->
  let pk := GetBlockOperationKey (Hash bo) in
  let tk := NewBlockOperationTxHashKey uniqueID1 bo in
  let sk := NewBlockOperationSourceKey uniqueID2 bo in
  let retryFails (m' : gmap string Common.JSON) :=
    forall uniqueID1' uniqueID2' fs',
      let st' := {| Core := m'; faults := fs' |} in
      exists e' st'',
        Save uniqueID1' uniqueID2' bo st' = (inl e', st'')
        /\ Core st'' = m'
        /\ (engineFails st' = None -> e' = BlockAlreadyExists) in
  (exists m',
     Save uniqueID1 uniqueID2 bo
       {| Core := m; faults := None :: None :: Some e :: fs |}
     = (inl e, {| Core := m'; faults := fs |})
     /\ m' !! pk = Some (Serialize bo)
     /\ m' !! tk = m !! tk
     /\ m' !! sk = m !! sk
     /\ retryFails m')
  /\ (m !! tk = None ->
      exists m',
        Save uniqueID1 uniqueID2 bo
          {| Core := m; faults := None :: None :: None :: Some e :: fs |}
        = (inl e, {| Core := m'; faults := fs |})
        /\ m' !! pk = Some (Serialize bo)
        /\ m' !! tk = Some (Common.JSONString (Hash bo))
        /\ m' !! sk = m !! sk
        /\ retryFails m').
Proof.
  intros Hs Hpk pk tk sk retryFails.
  assert (Hretry : forall m', is_Some (m' !! pk) -> retryFails m').
  { intros m' Hin u1' u2' fs' st'. eexists _, _.
    split; [by apply Save_present |].
    split; [by eapply (engine_Core st'), surjective_pairing |].
    by intros ->. }
  split.
  - exists (withPrimary bo m).
    split; [by apply Save_fails_at_tx |]. unfold withPrimary.
    fold pk. rewrite lookup_insert_eq.
    rewrite !lookup_insert_ne
      by (symmetry;
          first [apply primaryKey_ne_tx | apply primaryKey_ne_source]).
    repeat split. apply Hretry. by rewrite lookup_insert_eq.
  - intros Htk. exists (withTxIndex uniqueID1 bo m).
    split; [by apply Save_fails_at_source |]. unfold withTxIndex, withPrimary.
    fold pk tk.
    assert (tk <> pk) by apply primaryKey_ne_tx.
    assert (sk <> pk) by apply primaryKey_ne_source.
    assert (tk <> sk) by apply tx_ne_source.
    rewrite lookup_insert_eq.
    rewrite (lookup_insert_ne _ tk pk) by done. rewrite lookup_insert_eq.
    rewrite !(lookup_insert_ne _ _ sk) by done.
    repeat split. apply Hretry.
    rewrite lookup_insert_ne by done. by rewrite lookup_insert_eq.
Qed.

(** On an empty store, the third write fails: the primary record and the
    tx-index entry stay, and a retry meets BlockAlreadyExists. *)
Lemma Save_not_atomic_witness :
  let bo := {| Hash := "a-T"; OpHash := "a"; TxHash := "T";
               Type_ := "payment"; Source := "S"; Body := [];
               Height := 10;
               transaction :=
                 {| Transaction.B := {| Transaction.SequenceID := 1 |} |};
               isSaved := false |} in
  exists m',
    Save "u1" "u2" bo
      {| Core := ∅; faults := [None; None; None; Some (Backend 5)] |}
    = (inl (Backend 5), {| Core := m'; faults := [] |})
    /\ m' !! GetBlockOperationKey (Hash bo) = Some (Serialize bo)
    /\ m' !! NewBlockOperationSourceKey "u2" bo = None
    /\ exists st'',
         Save "u3" "u4" bo {| Core := m'; faults := [] |}
         = (inl BlockAlreadyExists, st'').
Proof.
  intros bo.
  destruct (Save_not_atomic "u1" "u2" bo ∅ (Backend 5) [] eq_refl
              (lookup_empty _)) as [_ H].
  destruct (H (lookup_empty _)) as (m' & HSave & Hpk & _ & Hsk & Hretry).
  exists m'. split; [exact HSave |]. split; [exact Hpk |].
  split; [rewrite Hsk; apply lookup_empty |].
  destruct (Hretry "u3" "u4" []) as (e' & st'' & HSave' & _ & He').
  exists st''. rewrite <- (He' eq_refl). exact HSave'.
Defined.

(** *** The invariant of the index *)

Lemma Serialize_not_string bo h : Serialize bo <> Common.JSONString h.
Proof. done. Qed.

Lemma primaryKey_hash bo bo' :
  Hash bo = Hash bo' -> primaryKey bo = primaryKey bo'.
Proof. unfold primaryKey. by intros ->. Qed.


Lemma Inv_empty : Inv ∅.
Proof. split; intros *; by rewrite lookup_empty. Qed.

(** A record whose primary key is absent is named by no entry. *)
Lemma Inv_fresh m bo k :
  Inv m -> m !! primaryKey bo = None ->
  m !! k <> Some (Common.JSONString (Hash bo)).
Proof.
  intros HI Hpk Hk.
  destruct (inv_shape m HI k _ Hk) as [(bo' & _ & ?) | (bo' & Hv & _ & Hp)];
    [done |].
  injection Hv as Hv. rewrite (primaryKey_hash bo bo' Hv) in Hpk. congruence.
Qed.

Lemma Inv_withPrimary m bo :
  Inv m -> m !! primaryKey bo = None -> Inv (withPrimary bo m).
Proof.
  intros HI Hpk. unfold withPrimary. split.
  - intros k v [[<- <-] | [Hne Hk]]%lookup_insert_Some; [by eauto |].
    destruct (inv_shape m HI k v Hk) as [? | (bo' & -> & Ht & Hp)];
      [by left | right].
    exists bo'. split; [done |]. split; [done |].
    rewrite lookup_insert_ne; [done | congruence].
  - intros k1 k2 h [[_ ?] | [_ H1]]%lookup_insert_Some
      [[_ ?] | [_ H2]]%lookup_insert_Some; try done.
    by apply (inv_tx m HI k1 k2 h).
  - intros k1 k2 h [[_ ?] | [_ H1]]%lookup_insert_Some
      [[_ ?] | [_ H2]]%lookup_insert_Some; try done.
    by apply (inv_source m HI k1 k2 h).
Qed.

(** Adding the first index entry of one kind ([tag] is "t" or "s") for a
    record that is present. *)
Lemma Inv_insert_index m bo k (tag : ascii) :
  Inv m ->
  m !! primaryKey bo = Some (Serialize bo) ->
  m !! k = None ->
  String.get 3 k = Some tag ->
  tag <> "h"%char ->
  (forall k', m !! k' = Some (Common.JSONString (Hash bo)) ->
              String.get 3 k' <> Some tag) ->
  Inv (<[k := Common.JSONString (Hash bo)]> m).
Proof.
  intros HI Hpk Hk Htag Hh Hfirst.
  assert (Hkp : forall bo', m !! primaryKey bo' = Some (Serialize bo') ->
            <[k := Common.JSONString (Hash bo)]> m !! primaryKey bo'
            = Some (Serialize bo')).
  { intros bo' Hp. rewrite lookup_insert_ne; [done | congruence]. }
  assert (Huniq : forall (c : ascii) k1 k2 h,
            (forall k1 k2 h,
               m !! k1 = Some (Common.JSONString h) ->
               m !! k2 = Some (Common.JSONString h) ->
               String.get 3 k1 = Some c -> String.get 3 k2 = Some c ->
               k1 = k2) ->
            <[k := Common.JSONString (Hash bo)]> m !! k1
            = Some (Common.JSONString h) ->
            <[k := Common.JSONString (Hash bo)]> m !! k2
            = Some (Common.JSONString h) ->
            String.get 3 k1 = Some c -> String.get 3 k2 = Some c ->
            k1 = k2).
  { intros c k1 k2 h Hm [[<- Hv1] | [_ H1]]%lookup_insert_Some
      [[<- Hv2] | [_ H2]]%lookup_insert_Some Hc1 Hc2; [done | | | by eauto].
    - injection Hv1 as <-. exfalso. apply (Hfirst k2 H2). congruence.
    - injection Hv2 as <-. exfalso. apply (Hfirst k1 H1). congruence. }
  split.
  - intros k' v [[<- <-] | [Hne Hk']]%lookup_insert_Some.
    + right. exists bo. split; [done |]. split; [congruence | by apply Hkp].
    + destruct (inv_shape m HI k' v Hk') as [? | (bo' & -> & Ht & Hp)];
        [by left | right].
      exists bo'. split; [done |]. split; [done | by apply Hkp].
  - intros k1 k2 h. apply Huniq. apply (inv_tx m HI).
  - intros k1 k2 h. apply Huniq. apply (inv_source m HI).
Qed.

Lemma withPrimary_fresh m bo k :
  Inv m -> m !! primaryKey bo = None ->
  withPrimary bo m !! k <> Some (Common.JSONString (Hash bo)).
Proof.
  intros HI Hpk. unfold withPrimary.
  intros [[_ ?] | [_ Hk]]%lookup_insert_Some; [done |].
  by apply (Inv_fresh m bo k).
Qed.

Lemma Inv_withTxIndex uniqueID1 m bo :
  Inv m -> m !! primaryKey bo = None ->
  withPrimary bo m !! NewBlockOperationTxHashKey uniqueID1 bo = None ->
  Inv (withTxIndex uniqueID1 bo m).
Proof.
  intros HI Hpk Htk. unfold withTxIndex.
  apply (Inv_insert_index _ _ _ "t"%char); try done.
  - by apply Inv_withPrimary.
  - unfold withPrimary. by rewrite lookup_insert_eq.
  - intros k' Hk'. by apply withPrimary_fresh in Hk'.
Qed.

Lemma withTxIndex_named uniqueID1 m bo k :
  Inv m -> m !! primaryKey bo = None ->
  withTxIndex uniqueID1 bo m !! k = Some (Common.JSONString (Hash bo)) ->
  k = NewBlockOperationTxHashKey uniqueID1 bo.
Proof.
  intros HI Hpk. unfold withTxIndex.
  intros [[<- _] | [_ Hk]]%lookup_insert_Some; [done |].
  by apply withPrimary_fresh in Hk.
Qed.

Lemma Inv_withSourceIndex uniqueID1 uniqueID2 m bo :
  Inv m -> m !! primaryKey bo = None ->
  withPrimary bo m !! NewBlockOperationTxHashKey uniqueID1 bo = None ->
  withTxIndex uniqueID1 bo m !! NewBlockOperationSourceKey uniqueID2 bo
  = None ->
  Inv (withSourceIndex uniqueID1 uniqueID2 bo m).
Proof.
  intros HI Hpk Htk Hsk. unfold withSourceIndex.
  apply (Inv_insert_index _ _ _ "s"%char); try done.
  - by apply Inv_withTxIndex.
  - unfold withTxIndex, withPrimary.
    rewrite lookup_insert_ne by apply primaryKey_ne_tx.
    by rewrite lookup_insert_eq.
  - intros k' Hk'. apply withTxIndex_named in Hk'; [| done ..]. by subst k'.
Qed.

Lemma Inv_SaveOutcome uniqueID1 uniqueID2 bo m r m' :
  Inv m -> SaveOutcome uniqueID1 uniqueID2 bo m r m' -> Inv m'.
Proof.
  intros HI [e | e ? ? | e ? ? ? | ? ? ? ?];
    eauto using Inv_withPrimary, Inv_withTxIndex, Inv_withSourceIndex.
Qed.

Lemma SaveOutcome_subseteq uniqueID1 uniqueID2 bo m r m' :
  SaveOutcome uniqueID1 uniqueID2 bo m r m' -> m ⊆ m'.
Proof.
  intros [e | e ? Hp | e ? Hp Ht | ? Hp Ht Hs]; [done | ..];
    unfold withSourceIndex, withTxIndex, withPrimary in *.
  - by apply insert_subseteq.
  - etrans; [by apply insert_subseteq |]. by apply insert_subseteq.
  - etrans; [by apply insert_subseteq |].
    etrans; [by apply insert_subseteq |]. by apply insert_subseteq.
Qed.

Lemma save_step_outcome m m' :
  save_step m m' ->
  exists uniqueID1 uniqueID2 bo r, SaveOutcome uniqueID1 uniqueID2 bo m r m'.
Proof.
  intros (u1 & u2 & bo & fs & r & fs' & HSave).
  exists u1, u2, bo, r. by apply Save_outcome in HSave.
Qed.

Lemma saves_Inv m m' : Inv m -> rtc save_step m m' -> Inv m'.
Proof.
  intros HI Hsteps. induction Hsteps as [| m m1 m2 Hstep _ IH]; [done |].
  apply IH. apply save_step_outcome in Hstep as (? & ? & ? & ? & Hout).
  by eapply Inv_SaveOutcome.
Qed.

Lemma saves_subseteq m m' : rtc save_step m m' -> m ⊆ m'.
Proof.
  induction 1 as [| m m1 m2 Hstep _ IH]; [done |].
  etrans; [| exact IH].
  apply save_step_outcome in Hstep as (? & ? & ? & ? & Hout).
  by eapply SaveOutcome_subseteq.
Qed.

Lemma reachable_Inv m : reachable m -> Inv m.
Proof. apply saves_Inv, Inv_empty. Qed.

(** *** Index consistency *)

Lemma prefix_get p k n c :
  String.prefix p k = true -> String.get n p = Some c ->
  String.get n k = Some c.
Proof.
  revert k n. induction p as [| x p IH]; intros k n; [done |].
  destruct k as [| y k]; [done |]. simpl.
  destruct (ascii_dec x y) as [-> |]; [| done].
  destruct n as [| n]; [done | apply IH].
Qed.

Lemma tx_prefix uniqueID bo :
  String.prefix (GetBlockOperationKeyPrefixTxHash (TxHash bo))
    (NewBlockOperationTxHashKey uniqueID bo) = true.
Proof. apply Keys.prefix_app. Qed.

Lemma source_prefix uniqueID bo :
  String.prefix (GetBlockOperationKeyPrefixSource (Source bo))
    (NewBlockOperationSourceKey uniqueID bo) = true.
Proof. apply Keys.prefix_app. Qed.

Lemma tx_prefix_tag txHash k :
  String.prefix (GetBlockOperationKeyPrefixTxHash txHash) k = true ->
  String.get 3 k = Some "t"%char.
Proof. intros H. by apply (prefix_get _ _ _ _ H). Qed.

Lemma source_prefix_tag source k :
  String.prefix (GetBlockOperationKeyPrefixSource source) k = true ->
  String.get 3 k = Some "s"%char.
Proof. intros H. by apply (prefix_get _ _ _ _ H). Qed.

Lemma ExistsBlockOperation_answer hash m fs :
  engineFails {| Core := m; faults := fs |} = None ->
  (ExistsBlockOperation hash {| Core := m; faults := fs |}).1
  = inr (bool_decide (is_Some (m !! GetBlockOperationKey hash))).
Proof.
  unfold ExistsBlockOperation, Has, bind, engine, engineFails. simpl.
  by destruct fs as [| [e |] fs].
Qed.

(** What a successful [Save] has written. *)
Lemma Save_done uniqueID1 uniqueID2 bo r m fs m1 fs' :
  Save uniqueID1 uniqueID2 bo {| Core := m; faults := fs |}
  = (inr r, {| Core := m1; faults := fs' |}) ->
  r = (set_isSaved true bo, savedEvent (set_isSaved true bo))
  /\ isSaved bo = false
  /\ m !! primaryKey bo = None
  /\ m !! NewBlockOperationTxHashKey uniqueID1 bo = None
  /\ m !! NewBlockOperationSourceKey uniqueID2 bo = None
  /\ m1 = withSourceIndex uniqueID1 uniqueID2 bo m.
Proof.
  intros HSave. apply Save_outcome in HSave. simpl in HSave.
  inversion HSave as [| | | Hs Hp Ht Hsrc]; subst.
  unfold withTxIndex, withPrimary in Ht, Hsrc.
  rewrite lookup_insert_ne in Ht by (symmetry; apply primaryKey_ne_tx).
  rewrite lookup_insert_ne in Hsrc by apply tx_ne_source.
  rewrite lookup_insert_ne in Hsrc by (symmetry; apply primaryKey_ne_source).
  done.
Qed.

(** The entries of a saved record, in every later store. *)
Lemma Saved_entries uniqueID1 uniqueID2 bo m :
  Saved uniqueID1 uniqueID2 bo m ->
  Inv m
  /\ m !! primaryKey bo = Some (Serialize bo)
  /\ m !! NewBlockOperationTxHashKey uniqueID1 bo
     = Some (Common.JSONString (Hash bo))
  /\ m !! NewBlockOperationSourceKey uniqueID2 bo
     = Some (Common.JSONString (Hash bo)).
Proof.
  intros (m0 & fs & r & fs' & m1 & Hreach & HSave & Hlater).
  pose proof (reachable_Inv _ Hreach) as HI0.
  pose proof (Save_outcome _ _ _ _ _ _ HSave) as Hout. simpl in Hout.
  pose proof (Inv_SaveOutcome _ _ _ _ _ _ HI0 Hout) as HI1.
  apply Save_done in HSave as (_ & _ & _ & _ & _ & ->).
  pose proof (saves_subseteq _ _ Hlater) as Hsub.
  split; [by eapply saves_Inv |].
  repeat split; eapply lookup_weaken; try exact Hsub;
    unfold withSourceIndex, withTxIndex, withPrimary.
  - rewrite lookup_insert_ne by apply primaryKey_ne_source.
    rewrite lookup_insert_ne by apply primaryKey_ne_tx.
    by rewrite lookup_insert_eq.
  - rewrite lookup_insert_ne by (symmetry; apply tx_ne_source).
    by rewrite lookup_insert_eq.
  - by rewrite lookup_insert_eq.
Qed.

(** C6. A successful [Save] of a record, in a store built by saves, writes
    its primary record and exactly two index entries, all three under keys
    that were absent: one under the tx-hash prefix and one under the source
    prefix of the record, each with the record's hash as its value. From
    then on, whatever is saved later, [ExistsBlockOperation] of the hash is
    true whenever the engine answers, and exactly one entry under each of
    the two prefixes has the hash as its value. *)
Theorem Save_index_consistent (uniqueID1 uniqueID2 : string)
    (bo : BlockOperation) (r : BlockOperation * string)
    (m m1 m2 : gmap string Common.JSON) (fs fs' : list (option Error)) :
  reachable m ->
  Save uniqueID1 uniqueID2 bo {| Core := m; faults := fs |}
  = (inr r, {| Core := m1; faults := fs' |}) ->
  rtc save_step m1 m2 ->
  let pk := GetBlockOperationKey (Hash bo) in
  let tk := NewBlockOperationTxHashKey uniqueID1 bo in
  let sk := NewBlockOperationSourceKey uniqueID2 bo in
  let entry := Common.JSONString (Hash bo) in
  (m !! pk = None /\ m !! tk = None /\ m !! sk = None /\ tk <> sk
   /\ m1 = <[sk := entry]> (<[tk := entry]> (<[pk := Serialize bo]> m))
   /\ String.prefix (GetBlockOperationKeyPrefixTxHash (TxHash bo)) tk = true
   /\ String.prefix (GetBlockOperationKeyPrefixSource (Source bo)) sk = true)
  /\ (forall fs2,
        engineFails {| Core := m2; faults := fs2 |} = None ->
        (ExistsBlockOperation (Hash bo) {| Core := m2; faults := fs2 |}).1
        = inr true)
  /\ exactlyOne m2 (GetBlockOperationKeyPrefixTxHash (TxHash bo)) (Hash bo)
  /\ exactlyOne m2 (GetBlockOperationKeyPrefixSource (Source bo)) (Hash bo).
Proof.
  intros Hreach HSave Hlater pk tk sk entry.
  assert (HSaved : Saved uniqueID1 uniqueID2 bo m2) by (by repeat eexists).
  apply Saved_entries in HSaved as (HI & Hpk & Htk & Hsk).
  apply Save_done in HSave as (_ & _ & Hp & Ht & Hs & ->).
  split.
  { repeat split;
      first [done | apply tx_ne_source | apply tx_prefix
            | apply source_prefix]. }
  split.
  { intros fs2 Hup. rewrite ExistsBlockOperation_answer by done.
    f_equal. apply bool_decide_eq_true. by eexists. }
  split.
  - exists tk. split; [split; [apply tx_prefix | done] |].
    intros k' [Hpre Hk']. apply (inv_tx m2 HI k' tk (Hash bo)); try done.
    by eapply tx_prefix_tag.
  - exists sk. split; [split; [apply source_prefix | done] |].
    intros k' [Hpre Hk']. apply (inv_source m2 HI k' sk (Hash bo)); try done.
    by eapply source_prefix_tag.
Qed.

(** A first save, and a second one of another record of the same
    transaction and source: the first record is still named once. *)
Lemma Save_index_consistent_witness :
  let bo1 := {| Hash := "a-T"; OpHash := "a"; TxHash := "T";
                Type_ := "payment"; Source := "S"; Body := [];
                Height := 10;
                transaction :=
                  {| Transaction.B := {| Transaction.SequenceID := 1 |} |};
                isSaved := false |} in
  let bo2 := {| Hash := "b-T"; OpHash := "b"; TxHash := "T";
                Type_ := "payment"; Source := "S"; Body := [];
                Height := 10;
                transaction :=
                  {| Transaction.B := {| Transaction.SequenceID := 2 |} |};
                isSaved := false |} in
  let m1 := withSourceIndex "u1" "u2" bo1 ∅ in
  let m2 := withSourceIndex "u3" "u4" bo2 m1 in
  (ExistsBlockOperation "a-T" {| Core := m2; faults := [] |}).1 = inr true
  /\ exactlyOne m2 (GetBlockOperationKeyPrefixTxHash "T") "a-T"
  /\ exactlyOne m2 (GetBlockOperationKeyPrefixSource "S") "a-T".
Proof.
  intros bo1 bo2 m1 m2.
  assert (H1 : Save "u1" "u2" bo1 {| Core := ∅; faults := [] |}
               = (inr (set_isSaved true bo1,
                       savedEvent (set_isSaved true bo1)),
                  {| Core := m1; faults := [] |}))
    by (vm_compute; reflexivity).
  assert (H2 : rtc save_step m1 m2).
  { apply rtc_once. exists "u3", "u4", bo2, [].
    exists (inr (set_isSaved true bo2, savedEvent (set_isSaved true bo2))), [].
    vm_compute. reflexivity. }
  destruct (Save_index_consistent "u1" "u2" bo1 _ ∅ m1 m2 [] []
              (rtc_refl _ _) H1 H2) as (_ & HExists & Htx & Hsrc).
  split; [apply HExists; reflexivity |]. split; [exact Htx | exact Hsrc].
Defined.

(** *** The order of the index *)

#[local] Instance keyLe_trans : Transitive keyLe.
Proof. intros x y z. unfold keyLe. apply Keys.leb_trans. Qed.

#[local] Instance keyLe_total : Total keyLe.
Proof. intros x y. unfold keyLe. apply String.leb_total. Qed.





(** *** Reading the records back *)








Example scenario_by_tx :
  yields (GetBlockOperationsByTxHash "T" scenarioStore) scenarioStore
  = [stored (scenarioOperation "a" 10 1);
     stored (scenarioOperation "b" 10 2);
     stored (scenarioOperation "c" 11 1)].
Proof. vm_compute. reflexivity. Qed.


End Index.

(** ** More on the block-time pacer *)
Module PacerMore.
Import Int Time Runner IntFacts PacerModel.

(** The value before the clamp: one of three expressions, whichever way the
    deadband test goes. *)
Lemma calculateBlockTimeBuffer_cases goal average untilNow delta :
  let buffer := calculateBlockTimeBuffer goal average untilNow delta in
  buffer = Z.max 0 (sub64 goal untilNow)
  \/ buffer = Z.max 0 (sub64 (sub64 goal delta) untilNow)
  \/ buffer = Z.max 0 (sub64 (add64 goal delta) untilNow).
Proof.
  unfold calculateBlockTimeBuffer. cbv zeta. rewrite Pacer.clamp_max.
  destruct (average >=? goal);
    [destruct (sub64 average goal <? 50 * Millisecond)
    | destruct (sub64 goal average <? 50 * Millisecond)]; auto.
Qed.

(** X1. With a correction step between 0 and the goal, a goal and step whose
    sum is a duration, and a time since the last proposal that is not
    negative, the buffer lies between 0 and goal + delta, whatever the
    average is. *)
Theorem calculateBlockTimeBuffer_bounded
    (goal average untilNow delta : Duration) :
  is_int64 untilNow ->
  0 <= untilNow ->
  0 <= delta <= goal ->
  goal + delta <= MaxInt64 ->
  0 <= calculateBlockTimeBuffer goal average untilNow delta <= goal + delta.
Proof.
  intros Hu Hu0 Hd Hmax.
  assert (Hr : forall z, - MaxInt64 <= z <= MaxInt64 -> is_int64 z).
  { intros z Hz. unfold is_int64, MinInt64, MaxInt64, two63 in *. lia. }
  assert (H1 : sub64 goal untilNow = goal - untilNow).
  { apply sub64_exact, Hr. unfold is_int64, MinInt64, MaxInt64, two63 in *.
    lia. }
  assert (H2 : sub64 (sub64 goal delta) untilNow = goal - delta - untilNow).
  { apply sub64_sub64_exact, Hr.
    unfold is_int64, MinInt64, MaxInt64, two63 in *. lia. }
  assert (H3 : sub64 (add64 goal delta) untilNow = goal + delta - untilNow).
  { apply sub64_add64_exact, Hr.
    unfold is_int64, MinInt64, MaxInt64, two63 in *. lia. }
  destruct (calculateBlockTimeBuffer_cases goal average untilNow delta)
    as [-> | [-> | ->]]; rewrite ?H1, ?H2, ?H3; lia.
Qed.

Lemma calculateBlockTimeBuffer_bounded_witness :
  0 <= calculateBlockTimeBuffer (5 * Second) (7 * Second) MaxInt64
         (1 * Second) <= 6 * Second.
Proof.
  apply (calculateBlockTimeBuffer_bounded (5 * Second) (7 * Second) MaxInt64
           (1 * Second)); vm_compute; try split; discriminate.
Defined.

Lemma small_int64 z : - 2 ^ 62 - 2 ^ 61 <= z <= 2 ^ 62 + 2 ^ 61 -> is_int64 z.
Proof. unfold is_int64, MinInt64, MaxInt64, two63. lia. Qed.

(** The buffer as a function of the exact differences. *)
Lemma calculateBlockTimeBuffer_small goal average untilNow delta :
  small goal -> small average -> small untilNow -> small delta ->
  calculateBlockTimeBuffer goal average untilNow delta
  = Z.max 0
      (if Z.abs (average - goal) <? 50 * Millisecond then goal - untilNow
       else if goal <? average then goal - delta - untilNow
       else goal + delta - untilNow).
Proof.
  unfold small. intros Hg Ha Hu Hd.
  destruct (Z.ltb_spec (Z.abs (average - goal)) (50 * Millisecond)) as [E | E].
  - apply Pacer.calculateBlockTimeBuffer_deadband; [done |].
    apply small_int64. lia.
  - unfold Millisecond in E. destruct (Z.ltb_spec goal average) as [L | L].
    + apply Pacer.calculateBlockTimeBuffer_above;
        [unfold Millisecond; lia | apply small_int64; lia ..].
    + apply Pacer.calculateBlockTimeBuffer_below;
        [unfold Millisecond; lia | apply small_int64; lia ..].
Qed.

(** X2. As long as the arithmetic does not wrap and the correction step is
    not negative, the buffer does not grow with the average block time nor
    with the time since the last proposal: a chain that has been slower, or
    a proposal that is older, never makes the proposer wait longer. *)
Theorem calculateBlockTimeBuffer_antitone
    (goal average average' untilNow untilNow' delta : Duration) :
  small goal -> small average -> small average' ->
  small untilNow -> small untilNow' -> small delta ->
  0 <= delta ->
  average <= average' ->
  untilNow <= untilNow' ->
  calculateBlockTimeBuffer goal average' untilNow' delta
  <= calculateBlockTimeBuffer goal average untilNow delta.
Proof.
  intros Hg Ha Ha' Hu Hu' Hd Hd0 Hle Hule.
  rewrite !calculateBlockTimeBuffer_small by done.
  unfold Millisecond.
  destruct (Z.ltb_spec (Z.abs (average - goal)) (50 * 1000000));
    destruct (Z.ltb_spec (Z.abs (average' - goal)) (50 * 1000000));
    destruct (Z.ltb_spec goal average);
    destruct (Z.ltb_spec goal average'); lia.
Qed.

Lemma calculateBlockTimeBuffer_antitone_witness :
  calculateBlockTimeBuffer (5 * Second) (6 * Second) (2 * Second) (1 * Second)
  <= calculateBlockTimeBuffer (5 * Second) (4 * Second) (1 * Second)
       (1 * Second).
Proof.
  apply calculateBlockTimeBuffer_antitone;
    unfold small; vm_compute; try split; discriminate.
Defined.

(** The average at a height from 1 to 2^63, as a quotient. *)
Lemma calculateAverageBlockTime_quot now genesis h :
  1 <= h <= two63 ->
  calculateAverageBlockTime now genesis h
  = Z.quot (Sub now genesis) (Z.max 1 (h - 1)).
Proof.
  intros Hh. unfold calculateAverageBlockTime. cbv zeta.
  rewrite Pacer.usub64_one by (unfold MaxUint64, two64, two63 in *; lia).
  destruct (Z.eqb_spec (h - 1) 0) as [E | E].
  - rewrite E. simpl. by rewrite Z.quot_1_r.
  - assert (Hi : is_int64 (h - 1)).
    { unfold is_int64, MinInt64, MaxInt64, two63 in *. lia. }
    unfold int64_of_uint64. rewrite (wrapInt64_id _ Hi).
    rewrite Z.max_r by lia.
    apply quo64_pos; [apply Sub_range | lia].
Qed.

(** X3. When the clock is not behind the genesis timestamp, the average
    block time at a height from 1 to 2^63 lies between 0 and the time since
    genesis, and it does not grow with the height. *)
Theorem calculateAverageBlockTime_bounds (now genesis : Time) (h h' : Z) :
  genesis <= now ->
  1 <= h <= h' ->
  h' <= two63 ->
  0 <= calculateAverageBlockTime now genesis h' 
    <= calculateAverageBlockTime now genesis h
  /\ calculateAverageBlockTime now genesis h <= Sub now genesis.
Proof.
  intros Hnow Hh Hh'.
  rewrite !calculateAverageBlockTime_quot by lia.
  assert (Hs : 0 <= Sub now genesis).
  { unfold Sub, MinInt64, MaxInt64, two63. lia. }
  set (s := Sub now genesis) in *.
  assert (Hq : forall d, 0 < d -> Z.quot s d = s / d).
  { intros d Hd. apply Z.quot_div_nonneg; lia. }
  rewrite !Hq by lia. repeat split.
  - apply Z.div_pos; lia.
  - apply Z.div_le_compat_l; lia.
  - apply Z.div_le_upper_bound; [lia |].
    pose proof (Z.mul_le_mono_nonneg_r 1 (Z.max 1 (h - 1)) s Hs ltac:(lia)).
    lia.
Qed.

Lemma calculateAverageBlockTime_bounds_witness :
  0 <= calculateAverageBlockTime (60 * Second) 0 13
    <= calculateAverageBlockTime (60 * Second) 0 7
  /\ calculateAverageBlockTime (60 * Second) 0 7 <= Sub (60 * Second) 0.
Proof.
  apply calculateAverageBlockTime_bounds; vm_compute; try split; discriminate.
Defined.

End PacerMore.

(** ** More on the state manager *)
Module ManagerMore.
Import Int Time Runner IntFacts Schedules.

Section Collaborators.

Variable Next : Ballot.State -> Ballot.State.
Variable ParseISO8601 : string -> option Time.

(** The five ways in which a step can happen. *)
Lemma step_cases env a l l' :
  step Next ParseISO8601 env a l = Some l' ->
  (exists height round ballotState,
     a = CallTransitISAACState height round ballotState
     /\ l' = {| sm := TransitISAACState height round ballotState (sm l);
                timer := timer l; running := running l;
                effects := effects l |})
  \/ (a = CallStop
      /\ l' = {| sm := Stop (sm l); timer := timer l; running := running l;
                 effects := effects l |})
  \/ (exists d,
        a = LoopEvent TimerFired /\ running l = true /\ timer l = Some d
        /\ l' = onTimer Next ParseISO8601 env
                  {| sm := sm l; timer := None; running := running l;
                     effects := effects l |})
  \/ (exists i state,
        a = LoopEvent (Received i) /\ running l = true
        /\ stateTransit (sm l) !! i = Some state
        /\ l' = onStateTransit ParseISO8601 env
                  {| sm := set_stateTransit (delete i (stateTransit (sm l)))
                             (sm l);
                     timer := timer l; running := running l;
                     effects := effects l |} state)
  \/ (exists n,
        a = LoopEvent StopReceived /\ running l = true
        /\ stop (sm l) = S n
        /\ l' = {| sm := set_stop n (sm l); timer := timer l;
                   running := false; effects := effects l |}).
Proof.
  destruct a as [height round ballotState | | [| i |]]; simpl.
  - intros [= <-]. left. by eexists _, _, _.
  - intros [= <-]. right. by left.
  - unfold selectCase. destruct (running l) eqn:Hr; [| done]. simpl.
    destruct (timer l) as [d |] eqn:Ht; [| done]. intros [= <-].
    right. right. left. by exists d.
  - unfold selectCase. destruct (running l) eqn:Hr; [| done]. simpl.
    destruct (stateTransit (sm l) !! i) as [state |] eqn:Hi; [| done].
    intros [= <-]. right. right. right. left. by exists i, state.
  - unfold selectCase. destruct (running l) eqn:Hr; [| done]. simpl.
    destruct (stop (sm l)) as [| n] eqn:Hs; [done |]. intros [= <-].
    right. right. right. right. by exists n.
Qed.

(** A property that every step keeps holds after every schedule. *)
Lemma run_invariant (P : Loop -> Prop) :
  (forall env a l l',
     P l -> step Next ParseISO8601 env a l = Some l' -> P l') ->
  forall schedule l l',
    P l -> run Next ParseISO8601 schedule l = Some l' -> P l'.
Proof.
  intros Hstep schedule.
  induction schedule as [| [env a] rest IH]; intros l l' HP; simpl.
  - by intros [= <-].
  - destruct (step Next ParseISO8601 env a l) as [l1 |] eqn:E; [| done].
    apply IH. by eapply Hstep.
Qed.

Lemma TransitISAACState_fields height round ballotState sm :
  let sm' := TransitISAACState height round ballotState sm in
  state sm' = state sm /\ stop sm' = stop sm
  /\ blockTimeBuffer sm' = blockTimeBuffer sm
  /\ genesis sm' = genesis sm /\ Conf sm' = Conf sm.
Proof.
  unfold TransitISAACState. by destruct (Consensus.IsLater _ _).
Qed.

Lemma signals_app effs effs' :
  signals (effs ++ effs') = signals effs ++ signals effs'.
Proof. apply omap_app. Qed.

Lemma sleeps_app effs effs' :
  sleeps (effs ++ effs') = sleeps effs ++ sleeps effs'.
Proof. apply omap_app. Qed.

(** What a received state does to the manager, whichever case it is. *)
Lemma onStateTransit_adopts env l target :
  let l' := onStateTransit ParseISO8601 env l target in
  State (sm l') = target
  /\ signals (effects l') = signals (effects l) ++ [target]
  /\ running l' = running l
  /\ (sleeps (effects l') = sleeps (effects l)
      \/ sleeps (effects l')
         = sleeps (effects l) ++ [blockTimeBuffer (sm l)])
  /\ (Consensus.BallotState target <> Ballot.StateALLCONFIRM ->
      blockTimeBuffer (sm l') = blockTimeBuffer (sm l)
      /\ stateTransit (sm l') = stateTransit (sm l)
      /\ is_Some (timer l'))
  /\ (Consensus.BallotState target = Ballot.StateALLCONFIRM ->
      timer l' = timer l
      /\ sm l' = NextHeight
                   (SetBlockTimeBuffer ParseISO8601 env
                      (setState target (sm l)))).
Proof.
  unfold onStateTransit, proposeOrWait.
  destruct (Consensus.BallotState target) eqn:Hb; simpl;
    try (destruct (String.eqb _ _); simpl);
    rewrite ?signals_app, ?sleeps_app; simpl;
    unfold NextHeight, State;
    try (destruct (TransitISAACState_fields
                     (uadd64 (Consensus.Height
                        (state (SetBlockTimeBuffer ParseISO8601 env
                                  (setState target (sm l))))) 1) 0
                     Ballot.StateINIT
                     (SetBlockTimeBuffer ParseISO8601 env
                        (setState target (sm l))))
           as (-> & _));
    simpl; rewrite ?app_nil_r;
    repeat split; try done; try (by left); try (by right); by eauto.
Qed.

Lemma SetBlockTimeBuffer_fields env sm :
  let sm' := SetBlockTimeBuffer ParseISO8601 env sm in
  state sm' = state sm /\ stateTransit sm' = stateTransit sm
  /\ stop sm' = stop sm /\ Conf sm' = Conf sm
  /\ 0 <= blockTimeBuffer sm'.
Proof.
  unfold SetBlockTimeBuffer. simpl. repeat split.
  apply Pacer.calculateBlockTimeBuffer_nonneg.
Qed.

(** What the timer case does to the manager, in its two branches. *)
Lemma onTimer_shape env l :
  let l' := onTimer Next ParseISO8601 env l in
  let cur := State (sm l) in
  running l' = running l
  /\ ((Consensus.BallotState cur = Ballot.StateACCEPT
       /\ sm l' = IncreaseRound (SetBlockTimeBuffer ParseISO8601 env (sm l))
       /\ State (sm l') = cur
       /\ 0 <= blockTimeBuffer (sm l')
       /\ timer l' = timer l
       /\ effects l' = effects l)
      \/ (Consensus.BallotState cur <> Ballot.StateACCEPT
          /\ State (sm l')
             = {| Consensus.Height := Consensus.Height cur;
                  Consensus.Round := Consensus.Round cur;
                  Consensus.BallotState := Next (Consensus.BallotState cur) |}
          /\ blockTimeBuffer (sm l') = blockTimeBuffer (sm l)
          /\ stateTransit (sm l') = stateTransit (sm l)
          /\ timer l' = resetTimer (Conf (sm l)) (timer l)
                          (Next (Consensus.BallotState cur))
          /\ effects l' = effects l ++ [GoBroadcastExpiredBallot cur;
                                        TransitSignal (State (sm l'))])).
Proof.
  unfold onTimer. simpl.
  destruct (decide (Consensus.BallotState (State (sm l)) = Ballot.StateACCEPT))
    as [Hacc | Hacc]; simpl; (split; [done |]).
  - left. unfold IncreaseRound.
    destruct (TransitISAACState_fields
                (Consensus.Height
                   (State (SetBlockTimeBuffer ParseISO8601 env (sm l))))
                (uadd64 (Consensus.Round
                   (State (SetBlockTimeBuffer ParseISO8601 env (sm l)))) 1)
                Ballot.StateINIT (SetBlockTimeBuffer ParseISO8601 env (sm l)))
      as (Hst & _ & Hbuf & _).
    unfold State in *. cbv zeta in Hst, Hbuf. rewrite Hst, Hbuf.
    repeat split; try done.
    apply SetBlockTimeBuffer_fields.
  - right. by repeat split.
Qed.

(** X4. Along every schedule from a new manager, the cached
    [blockTimeBuffer] is never negative, and so is no duration that the
    loop sleeps before it proposes. *)
Theorem sleeps_nonnegative (genesisTimestamp : Time) (conf : Config)
    (schedule : list (Env * Action)) (l' : Loop) :
  run Next ParseISO8601 schedule
    (Start (NewISAACStateManager genesisTimestamp conf)) = Some l' ->
  0 <= blockTimeBuffer (sm l')
  /\ Forall (fun d => 0 <= d) (sleeps (effects l')).
Proof.
  apply (run_invariant
           (fun l => 0 <= blockTimeBuffer (sm l)
                     /\ Forall (fun d => 0 <= d) (sleeps (effects l))));
    [| by split; [vm_compute | constructor]].
  clear. intros env a l l' [Hbuf Hsl] Hstep.
  apply step_cases in Hstep
    as [(h & r & b & -> & ->) | [[-> ->] | [(d & -> & Hr & Ht & ->)
       | [(i & t & -> & Hr & Hi & ->) | (n & -> & Hr & Hn & ->)]]]]; simpl.
  - by destruct (TransitISAACState_fields h r b (sm l)) as (_ & _ & -> & _).
  - done.
  - destruct (onTimer_shape env
                {| sm := sm l; timer := None; running := running l;
                   effects := effects l |})
      as (_ & [(_ & _ & _ & Hb & _ & ->) | (_ & _ & -> & _ & _ & ->)]);
      simpl; [done |].
    split; [done |]. rewrite sleeps_app. simpl. by rewrite app_nil_r.
  - set (l0 := {| sm := set_stateTransit _ (sm l); timer := timer l;
                  running := running l; effects := effects l |}).
    destruct (onStateTransit_adopts env l0 t)
      as (_ & _ & _ & Hsleeps & Hother & Hall). split.
    + destruct (decide (Consensus.BallotState t = Ballot.StateALLCONFIRM))
        as [E | E].
      * destruct (Hall E) as [_ ->]. unfold NextHeight.
        match goal with
        | |- 0 <= blockTimeBuffer (TransitISAACState ?h ?r ?b ?m) =>
            destruct (TransitISAACState_fields h r b m) as (_ & _ & -> & _)
        end.
        apply SetBlockTimeBuffer_fields.
      * by destruct (Hother E) as [-> _].
    + destruct Hsleeps as [-> | ->]; [done |].
      apply Forall_app. split; [done |]. by constructor.
  - done.
Qed.

(** X5. Once the loop has received the stop signal it does nothing more:
    no event of the loop can happen, and whatever is called afterwards, the
    state, the timer and the effects stay as they were. *)
Theorem stopped_for_good (env : Env) (l : Loop) (n : nat) :
  running l = true ->
  stop (sm l) = S n ->
  exists l1,
    selectCase Next ParseISO8601 env StopReceived l = Some l1
    /\ running l1 = false
    /\ State (sm l1) = State (sm l)
    /\ (forall env' e, selectCase Next ParseISO8601 env' e l1 = None)
    /\ forall schedule l',
         run Next ParseISO8601 schedule l1 = Some l' ->
         running l' = false
         /\ State (sm l') = State (sm l)
         /\ timer l' = timer l
         /\ effects l' = effects l.
Proof.
  intros Hr Hn. unfold selectCase at 1. rewrite Hr, Hn. simpl.
  eexists. split; [done |]. simpl. split; [done |]. split; [done |].
  split; [done |]. intros schedule l'.
  apply (run_invariant
           (fun l' => running l' = false /\ State (sm l') = State (sm l)
                      /\ timer l' = timer l /\ effects l' = effects l));
    [| done].
  clear. intros env a l1 l2 (Hrun & Hst & Ht & He) Hstep.
  apply step_cases in Hstep
    as [(h & r & b & -> & ->) | [[-> ->] | [(d & -> & Hr & _)
       | [(i & t & -> & Hr & _) | (k & -> & Hr & _)]]]]; simpl;
    try congruence.
  - destruct (TransitISAACState_fields h r b (sm l1)) as (Hs & _).
    unfold State in *. cbv zeta in Hs. by rewrite Hs.
  - done.
Qed.

(** X6. Whatever the loop receives from the channel it adopts and signals:
    in each of the four cases, with or without a proposal of its own, the
    state becomes the received one and [transitSignal] is called exactly
    once, with that state. Unless the state is ALLCONFIRM, the timer is
    armed afterwards and the channel has lost just the received value. *)
Theorem received_is_adopted (env : Env) (l : Loop) (i : nat)
    (target : Consensus.ISAACState) :
  running l = true ->
  stateTransit (sm l) !! i = Some target ->
  exists l',
    selectCase Next ParseISO8601 env (Received i) l = Some l'
    /\ State (sm l') = target
    /\ signals (effects l') = signals (effects l) ++ [target]
    /\ (Consensus.BallotState target <> Ballot.StateALLCONFIRM ->
        is_Some (timer l')
        /\ stateTransit (sm l') = delete i (stateTransit (sm l))).
Proof.
  intros Hr Hi. unfold selectCase. rewrite Hr, Hi. cbn [negb].
  set (l0 := {| sm := set_stateTransit (delete i (stateTransit (sm l)))
                        (sm l);
                timer := timer l; running := running l;
                effects := effects l |}).
  exists (onStateTransit ParseISO8601 env l0 target).
  split; [unfold l0; by rewrite Hr |].
  destruct (onStateTransit_adopts env l0 target)
    as (Hst & Hsig & _ & _ & Hother & _).
  split; [done |]. split; [done |]. intros Hne.
  by destruct (Hother Hne) as (_ & -> & ?).
Qed.

(** X7. The last state passed to [transitSignal] is the current state: along
    every schedule from a started manager, either no signal was given and
    the state is the initial one, or the latest signal carries the state
    that [State()] returns. *)
Theorem signal_tracks_state (sm0 : ISAACStateManager)
    (schedule : list (Env * Action)) (l' : Loop) :
  run Next ParseISO8601 schedule (Start sm0) = Some l' ->
  last (signals (effects l')) = Some (State (sm l'))
  \/ (signals (effects l') = [] /\ State (sm l') = State sm0).
Proof.
  apply (run_invariant
           (fun l => last (signals (effects l)) = Some (State (sm l))
                     \/ (signals (effects l) = []
                         /\ State (sm l) = State sm0)));
    [| by right].
  clear. intros env a l l' HI Hstep.
  apply step_cases in Hstep
    as [(h & r & b & -> & ->) | [[-> ->] | [(d & -> & Hr & Ht & ->)
       | [(i & t & -> & Hr & Hi & ->) | (n & -> & Hr & Hn & ->)]]]]; simpl.
  - destruct (TransitISAACState_fields h r b (sm l)) as (Hs & _).
    unfold State in *. cbv zeta in Hs. by rewrite Hs.
  - done.
  - destruct (onTimer_shape env
                {| sm := sm l; timer := None; running := running l;
                   effects := effects l |})
      as (_ & [(_ & _ & Hs & _ & _ & He) | (_ & _ & _ & _ & _ & He)]);
      simpl in *.
    + by rewrite He, Hs.
    + left. rewrite He, signals_app. simpl. by rewrite last_snoc.
  - set (l0 := {| sm := set_stateTransit _ (sm l); timer := timer l;
                  running := running l; effects := effects l |}).
    destruct (onStateTransit_adopts env l0 t) as (Hs & Hsig & _).
    left. rewrite Hsig, Hs. by rewrite last_snoc.
  - done.
Qed.

(** X18. At the greatest round, and at the greatest height, the increment
    wraps to 0: the target that [IncreaseRound], respectively [NextHeight],
    asks for is then not later than the current state, and the call leaves
    the manager as it was, with nothing sent to the channel. *)
Theorem increments_wrap (sm : ISAACStateManager) :
  is_uint64 (Consensus.Height (State sm)) ->
  is_uint64 (Consensus.Round (State sm)) ->
  (Consensus.Round (State sm) = MaxUint64 -> IncreaseRound sm = sm)
  /\ (Consensus.Height (State sm) = MaxUint64 -> NextHeight sm = sm).
Proof.
  unfold is_uint64, IncreaseRound, NextHeight, TransitISAACState, State.
  intros Hh Hr. split; intros E; rewrite E;
    change (uadd64 MaxUint64 1) with 0;
    unfold Consensus.IsLater; simpl.
  - rewrite Z.eqb_refl. simpl. rewrite E.
    change (MaxUint64 =? 0) with false. by simpl.
  - rewrite E. change (MaxUint64 =? 0) with false. by simpl.
Qed.

Lemma increments_wrap_witness :
  let sm := set_state {| Consensus.Height := 7; Consensus.Round := MaxUint64;
                         Consensus.BallotState := Ballot.StateACCEPT |}
              (NewISAACStateManager 0 exampleConf) in
  IncreaseRound sm = sm.
Proof.
  intros sm. apply (increments_wrap sm); vm_compute; try split;
    try discriminate; reflexivity.
Defined.

(** X19. A received INIT state starts the same wait for the proposer and
    for the other nodes: what the loop sleeps before it proposes and what
    it then arms the timer with add up to [blockTimeBuffer] + TimeoutINIT,
    which is what a node that is not the proposer arms the timer with (the
    sum being a duration). *)
Theorem proposeOrWait_total_wait (env : Env) (l : Loop)
    (state : Consensus.ISAACState) :
  is_int64 (blockTimeBuffer (sm l) + TimeoutINIT (Conf (sm l))) ->
  let l' := proposeOrWait env l state in
  exists slept armed,
    sleeps (effects l') = sleeps (effects l) ++ slept
    /\ timer l' = Some armed
    /\ foldr Z.add 0 slept + armed
       = blockTimeBuffer (sm l) + TimeoutINIT (Conf (sm l))
    /\ State (sm l') = state.
Proof.
  intros Hsum. unfold proposeOrWait.
  destruct (String.eqb _ _); simpl.
  - exists [blockTimeBuffer (sm l)], (TimeoutINIT (Conf (sm l))).
    rewrite sleeps_app. simpl. split_and!; try done. lia.
  - exists [], (blockTimeBuffer (sm l) + TimeoutINIT (Conf (sm l))).
    rewrite sleeps_app. simpl. rewrite app_nil_r. split_and!; try done.
    unfold add64. by rewrite wrapInt64_id.
Qed.

Lemma proposeOrWait_total_wait_witness :
  let l := Start (NewISAACStateManager 0 exampleConf) in
  let state := {| Consensus.Height := 1; Consensus.Round := 0;
                  Consensus.BallotState := Ballot.StateINIT |} in
  exists slept armed,
    sleeps (effects (proposeOrWait exampleEnv l state)) = slept
    /\ timer (proposeOrWait exampleEnv l state) = Some armed
    /\ foldr Z.add 0 slept + armed = 4 * Second.
Proof.
  intros l state.
  destruct (proposeOrWait_total_wait exampleEnv l state)
    as (slept & armed & Hs & Ht & Hsum & _).
  - vm_compute. split; discriminate.
  - exists slept, armed. split; [exact Hs |]. split; [exact Ht | exact Hsum].
Defined.

Lemma IsLater_next_height (s : Consensus.ISAACState) (b : Ballot.State) :
  Consensus.IsLater s
    {| Consensus.Height := Consensus.Height s + 1; Consensus.Round := 0;
       Consensus.BallotState := b |} = true.
Proof.
  unfold Consensus.IsLater. simpl.
  destruct (Z.eqb_spec (Consensus.Height s) (Consensus.Height s + 1));
    [lia |].
  simpl. apply Z.ltb_lt. lia.
Qed.

Lemma stateWithin_mono b b' s : b <= b' -> stateWithin b s -> stateWithin b' s.
Proof. unfold stateWithin. lia. Qed.

Lemma TransitISAACState_channel height round ballotState sm :
  stateTransit (TransitISAACState height round ballotState sm)
  = stateTransit sm
  \/ stateTransit (TransitISAACState height round ballotState sm)
     = stateTransit sm
       ++ [{| Consensus.Height := height; Consensus.Round := round;
              Consensus.BallotState := ballotState |}].
Proof.
  unfold TransitISAACState. destruct (Consensus.IsLater _ _); by eauto.
Qed.

Hypothesis Next_INIT : Next Ballot.StateINIT = Ballot.StateSIGN.
Hypothesis Next_SIGN : Next Ballot.StateSIGN = Ballot.StateACCEPT.

Lemma Awake_step env a l l' b :
  Awake b l -> 0 <= b < MaxUint64 -> callWithin b a ->
  step Next ParseISO8601 env a l = Some l' ->
  Awake (b + 1) l'.
Proof.
  intros (Hst & Hch & Htimer & Hall) Hb Hcall Hstep.
  assert (Hch' : Forall (stateWithin (b + 1)) (stateTransit (sm l))).
  { eapply Forall_impl; [exact Hch |]. intros s. apply stateWithin_mono. lia. }
  assert (Hst' : stateWithin (b + 1) (State (sm l))).
  { revert Hst. apply stateWithin_mono. lia. }
  apply step_cases in Hstep
    as [(h & r & bs & -> & ->) | [[-> ->] | [(d & -> & Hr & Ht & ->)
       | [(i & t & -> & Hr & Hi & ->) | (n & -> & Hr & Hn & ->)]]]].
  - unfold Awake. simpl.
    destruct (TransitISAACState_fields h r bs (sm l)) as (Hs & _).
    unfold State in *. cbv zeta in Hs. rewrite Hs.
    destruct (TransitISAACState_channel h r bs (sm l)) as [-> | ->].
    + by split_and!.
    + split; [done |]. split.
      * apply Forall_app. split; [done |]. constructor; [| done].
        unfold stateWithin, callWithin in *. simpl. lia.
      * split; intros _; by destruct (stateTransit (sm l)).
  - by split_and!.
  - set (l0 := {| sm := sm l; timer := None; running := running l;
                  effects := effects l |}).
    destruct (onTimer_shape env l0)
      as (_ & [(Hacc & Hsm & Hs & _ & _ & _)
              | (Hne & Hs & _ & Hq & Ht' & _)]); simpl in *.
    + unfold Awake. rewrite Hs. split; [done |].
      assert (Hq : stateTransit (sm (onTimer Next ParseISO8601 env l0))
                   = stateTransit (sm l)
                     ++ [{| Consensus.Height := Consensus.Height (State (sm l));
                            Consensus.Round :=
                              Consensus.Round (State (sm l)) + 1;
                            Consensus.BallotState := Ballot.StateINIT |}]).
      { rewrite Hsm. unfold IncreaseRound, TransitISAACState, State. simpl.
        unfold uadd64. rewrite wrapUint64_id
          by (unfold is_uint64, stateWithin, State in *; lia).
        by rewrite Manager.IsLater_next_round. }
      rewrite Hq. split.
      * apply Forall_app. split; [done |]. constructor; [| done].
        unfold stateWithin, State in *. simpl. lia.
      * split; intros _; by destruct (stateTransit (sm l)).
    + unfold Awake. rewrite Hs, Hq, Ht'. simpl.
      split; [unfold stateWithin, State in *; simpl; lia |].
      split; [done |].
      destruct (Consensus.BallotState (State (sm l))) eqn:Hbs;
        rewrite ?Next_INIT, ?Next_SIGN; simpl; try done.
      split; intros _; by apply Hall.
  - set (l0 := {| sm := set_stateTransit (delete i (stateTransit (sm l)))
                          (sm l);
                  timer := timer l; running := running l;
                  effects := effects l |}).
    assert (Ht : stateWithin b t).
    { rewrite Forall_forall in Hch. apply Hch.
      by eapply list_elem_of_lookup_2. }
    assert (Hdel : Forall (stateWithin (b + 1))
                     (delete i (stateTransit (sm l)))).
    { eapply Forall_impl; [by apply Forall_delete |].
      intros s. apply stateWithin_mono. lia. }
    destruct (onStateTransit_adopts env l0 t)
      as (Hs & _ & _ & _ & Hother & Hallc).
    fold l0. unfold Awake. rewrite Hs.
    split; [revert Ht; apply stateWithin_mono; lia |].
    destruct (decide (Consensus.BallotState t = Ballot.StateALLCONFIRM))
      as [E | E].
    + destruct (Hallc E) as [_ ->].
      assert (Hq : stateTransit
                     (NextHeight (SetBlockTimeBuffer ParseISO8601 env
                                    (setState t (sm l0))))
                   = delete i (stateTransit (sm l))
                     ++ [{| Consensus.Height := Consensus.Height t + 1;
                            Consensus.Round := 0;
                            Consensus.BallotState := Ballot.StateINIT |}]).
      { unfold NextHeight, TransitISAACState, State. simpl.
        unfold uadd64. rewrite wrapUint64_id
          by (unfold is_uint64, stateWithin in *; lia).
        by rewrite IsLater_next_height. }
      rewrite Hq. split.
      * apply Forall_app. split; [done |]. constructor; [| done].
        unfold stateWithin in *. simpl. lia.
      * split; intros _; by destruct (delete i (stateTransit (sm l))).
    + destruct (Hother E) as (_ & -> & [d Hd]). simpl.
      split; [done |]. by rewrite Hd.
  - by split_and!.
Qed.

Lemma Awake_run schedule : forall b l l',
  Awake b l -> 0 <= b ->
  Forall (fun ea => callWithin b ea.2) schedule ->
  b + Z.of_nat (length schedule) <= MaxUint64 ->
  run Next ParseISO8601 schedule l = Some l' ->
  Awake (b + Z.of_nat (length schedule)) l'.
Proof.
  induction schedule as [| [env a] rest IH]; intros b l l' HA Hb Hcalls Hlen.
  - simpl. intros [= <-]. by rewrite Z.add_0_r.
  - simpl run. destruct (step Next ParseISO8601 env a l) as [l1 |] eqn:E;
      [| done].
    apply Forall_cons in Hcalls as [Hcall Hcalls].
    cbn [length] in *. intros Hrun.
    replace (b + Z.of_nat (S (length rest)))
      with (b + 1 + Z.of_nat (length rest)) by lia.
    apply (IH (b + 1) l1); [| lia | | lia | done].
    + eapply Awake_step; [done | lia | done | done].
    + eapply Forall_impl; [exact Hcalls |]. intros [env' a'] Hc.
      destruct a'; simpl in *; lia.
Qed.

(** X8. The loop of a new manager always has something to wake it. Let
    [Next] take INIT to SIGN and SIGN to ACCEPT, and let the heights and
    rounds asked for stay far enough below the greatest uint64 that no
    increment wraps. Then after every schedule the timer is armed or a
    transition waits in the channel; and one waits whenever the state is
    ALLCONFIRM. *)
Theorem loop_stays_awake (genesisTimestamp : Time) (conf : Config) (B : Z)
    (schedule : list (Env * Action)) (l' : Loop) :
  0 <= B ->
  Forall (fun ea => callWithin B ea.2) schedule ->
  B + Z.of_nat (length schedule) <= MaxUint64 ->
  run Next ParseISO8601 schedule
    (Start (NewISAACStateManager genesisTimestamp conf)) = Some l' ->
  (is_Some (timer l') \/ stateTransit (sm l') <> [])
  /\ (Consensus.BallotState (State (sm l')) = Ballot.StateALLCONFIRM ->
      stateTransit (sm l') <> []).
Proof.
  intros HB Hcalls Hlen Hrun.
  destruct (Awake_run schedule B
              (Start (NewISAACStateManager genesisTimestamp conf)) l')
    as (_ & _ & Ht & Hall); try done.
  split; [| done].
  destruct (timer l') as [d |]; [by left | right; by apply Ht].
Qed.

End Collaborators.

Lemma sleeps_nonnegative_witness :
  exists l',
    run Ballot.successor (fun _ => None) exampleSchedule
      (Start (NewISAACStateManager 0 exampleConf)) = Some l'
    /\ sleeps (effects l') <> []
    /\ Forall (fun d => 0 <= d) (sleeps (effects l')).
Proof.
  destruct (run Ballot.successor (fun _ => None) exampleSchedule
              (Start (NewISAACStateManager 0 exampleConf)))
    as [l' |] eqn:E; [| vm_compute in E; discriminate].
  exists l'. split; [reflexivity |]. split.
  - vm_compute in E. injection E as <-. discriminate.
  - exact (proj2 (sleeps_nonnegative Ballot.successor (fun _ => None) 0
                    exampleConf exampleSchedule l' E)).
Defined.

Lemma stopped_for_good_witness :
  exists l1,
    selectCase Ballot.successor (fun _ => None) exampleEnv StopReceived
      (Start (Stop (NewISAACStateManager 0 exampleConf))) = Some l1
    /\ forall schedule l',
         run Ballot.successor (fun _ => None) schedule l1 = Some l' ->
         State (sm l') = State (NewISAACStateManager 0 exampleConf).
Proof.
  destruct (stopped_for_good Ballot.successor (fun _ => None) exampleEnv
              (Start (Stop (NewISAACStateManager 0 exampleConf))) 0
              eq_refl eq_refl) as (l1 & Hsel & _ & _ & _ & Hrun).
  exists l1. split; [exact Hsel |]. intros schedule l' H.
  exact (proj1 (proj2 (Hrun schedule l' H))).
Defined.

Lemma received_is_adopted_witness :
  let target := {| Consensus.Height := 2; Consensus.Round := 0;
                   Consensus.BallotState := Ballot.StateINIT |} in
  exists l',
    selectCase Ballot.successor (fun _ => None) exampleEnv (Received 0)
      (Start (TransitISAACState 2 0 Ballot.StateINIT
                (NewISAACStateManager 0 exampleConf))) = Some l'
    /\ State (sm l') = target
    /\ signals (effects l') = [target].
Proof.
  intros target.
  destruct (received_is_adopted Ballot.successor (fun _ => None) exampleEnv
              (Start (TransitISAACState 2 0 Ballot.StateINIT
                        (NewISAACStateManager 0 exampleConf)))
              0 target eq_refl eq_refl) as (l' & Hsel & Hst & Hsig & _).
  exists l'. split; [exact Hsel |]. split; [exact Hst | exact Hsig].
Defined.

Lemma signal_tracks_state_witness :
  exists l',
    run Ballot.successor (fun _ => None) exampleSchedule
      (Start (NewISAACStateManager 0 exampleConf)) = Some l'
    /\ last (signals (effects l')) = Some (State (sm l')).
Proof.
  destruct (run Ballot.successor (fun _ => None) exampleSchedule
              (Start (NewISAACStateManager 0 exampleConf)))
    as [l' |] eqn:E; [| vm_compute in E; discriminate].
  exists l'. split; [reflexivity |].
  destruct (signal_tracks_state Ballot.successor (fun _ => None)
              (NewISAACStateManager 0 exampleConf) exampleSchedule l' E)
    as [H | [H _]]; [exact H |].
  vm_compute in E. injection E as <-. discriminate.
Defined.

Lemma loop_stays_awake_witness :
  exists l',
    run Ballot.successor (fun _ => None) exampleSchedule
      (Start (NewISAACStateManager 0 exampleConf)) = Some l'
    /\ (is_Some (timer l') \/ stateTransit (sm l') <> []).
Proof.
  destruct (run Ballot.successor (fun _ => None) exampleSchedule
              (Start (NewISAACStateManager 0 exampleConf)))
    as [l' |] eqn:E; [| vm_compute in E; discriminate].
  exists l'. split; [reflexivity |].
  refine (proj1 (loop_stays_awake Ballot.successor (fun _ => None)
                   eq_refl eq_refl 0 exampleConf 2 exampleSchedule l'
                   _ _ _ E)).
  - vm_compute. discriminate.
  - repeat constructor; vm_compute; discriminate.
  - vm_compute. discriminate.
Defined.

End ManagerMore.

(** ** More on the block-operation index *)
Module IndexMore.
Import Errors Storage Block IndexModel Index KeysModel.

Local Open Scope string_scope.

(** *** The calls of the store, evaluated *)

Lemma Has_eval key m fs :
  Has key {| Core := m; faults := fs |}
  = match fs with
    | Some e :: rest => (inl e, {| Core := m; faults := rest |})
    | _ => (inr (bool_decide (is_Some (m !! key))),
            {| Core := m; faults := tail fs |})
    end.
Proof. by destruct fs as [| [e |] rest]. Qed.

Lemma Get_eval key m fs :
  Get key {| Core := m; faults := fs |}
  = match fs with
    | Some e :: rest => (inl e, {| Core := m; faults := rest |})
    | _ => (match m !! key with
            | Some v => inr v
            | None => inl StorageRecordDoesNotExist
            end, {| Core := m; faults := tail fs |})
    end.
Proof.
  unfold Get, bind, engine. destruct fs as [| [e |] rest]; simpl;
    by destruct (m !! key).
Qed.

Lemma New_eval key v m fs :
  New key v {| Core := m; faults := fs |}
  = match fs with
    | Some e :: rest => (inl e, {| Core := m; faults := rest |})
    | _ => match m !! key with
           | Some _ => (inl StorageRecordAlreadyExists,
                        {| Core := m; faults := tail fs |})
           | None => (inr tt, {| Core := <[key := v]> m;
                                 faults := tail fs |})
           end
    end.
Proof.
  unfold New, bind, engine. destruct fs as [| [e |] rest]; simpl;
    by destruct (m !! key).
Qed.

Lemma GetBlockOperation_eval hash m fs :
  GetBlockOperation hash {| Core := m; faults := fs |}
  = match fs with
    | Some e :: rest => (inl e, {| Core := m; faults := rest |})
    | _ => (match m !! GetBlockOperationKey hash with
            | Some v =>
                match Unmarshal v with
                | inr bo => inr (set_isSaved true bo)
                | inl e => inl e
                end
            | None => inl StorageRecordDoesNotExist
            end, {| Core := m; faults := tail fs |})
    end.
Proof.
  unfold GetBlockOperation. unfold bind at 1. rewrite Get_eval.
  destruct fs as [| [e |] rest]; try done;
    destruct (m !! GetBlockOperationKey hash) as [v |]; try done;
    by destruct (Unmarshal v).
Qed.

(** *** When [Save] succeeds *)

(** The first four answers of the engine are not failures. *)
Lemma Save_answers uniqueID1 uniqueID2 bo m fs r st' :
  Save uniqueID1 uniqueID2 bo {| Core := m; faults := fs |} = (inr r, st') ->
  Forall (fun f => f = None) (take 4 fs).
Proof.
  unfold Save. destruct (isSaved bo); [done |].
  unfold bind at 1. rewrite Has_eval.
  destruct fs as [| [e |] fs]; [by constructor | done |]. cbn [tail].
  case_bool_decide; [done |].
  unfold bind at 1. rewrite New_eval.
  destruct fs as [| [e |] fs]; [by repeat constructor | done |]. cbn [tail].
  destruct (m !! _); [done |].
  unfold bind at 1. rewrite New_eval.
  destruct fs as [| [e |] fs]; [by repeat constructor | done |]. cbn [tail].
  destruct (_ !! _); [done |].
  unfold bind at 1. rewrite New_eval.
  destruct fs as [| [e |] fs]; [by repeat constructor | done |].
  intros _. by repeat constructor.
Qed.

Lemma Save_succeeds uniqueID1 uniqueID2 bo m fs :
  isSaved bo = false ->
  m !! primaryKey bo = None ->
  m !! NewBlockOperationTxHashKey uniqueID1 bo = None ->
  m !! NewBlockOperationSourceKey uniqueID2 bo = None ->
  Forall (fun f => f = None) (take 4 fs) ->
  Save uniqueID1 uniqueID2 bo {| Core := m; faults := fs |}
  = (inr (set_isSaved true bo, savedEvent (set_isSaved true bo)),
     {| Core := withSourceIndex uniqueID1 uniqueID2 bo m;
        faults := drop 4 fs |}).
Proof.
  intros Hs Hp Ht Hsk Hf. unfold primaryKey in Hp.
  assert (Ht' : <[GetBlockOperationKey (Hash bo) := Serialize bo]> m
                !! NewBlockOperationTxHashKey uniqueID1 bo = None).
  { rewrite lookup_insert_ne; [done |].
    symmetry. apply (primaryKey_ne_tx uniqueID1 bo bo). }
  assert (Hsk' : <[NewBlockOperationTxHashKey uniqueID1 bo :=
                     Common.JSONString (Hash bo)]>
                   (<[GetBlockOperationKey (Hash bo) := Serialize bo]> m)
                 !! NewBlockOperationSourceKey uniqueID2 bo = None).
  { rewrite lookup_insert_ne by apply tx_ne_source.
    rewrite lookup_insert_ne; [done |].
    symmetry. apply (primaryKey_ne_source uniqueID2 bo bo). }
  unfold Save. rewrite Hs.
  unfold withSourceIndex, withTxIndex, withPrimary, primaryKey.
  destruct fs as [| f1 [| f2 [| f3 [| f4 fs]]]]; simpl in Hf;
    repeat (apply Forall_cons in Hf as [-> Hf]);
    unfold bind at 1; rewrite Has_eval; cbn [tail];
    rewrite Hp, bool_decide_false by (by inv 1);
    unfold bind at 1; rewrite New_eval; cbn [tail]; rewrite Hp;
    unfold bind at 1; rewrite New_eval; cbn [tail]; rewrite Ht';
    unfold bind at 1; rewrite New_eval; cbn [tail]; rewrite Hsk';
    reflexivity.
Qed.

(** X9. [Save] succeeds exactly when the record is not marked as saved,
    none of its three keys is in the store, and the engine fails none of
    the four calls. It then returns the record marked as saved. *)
Theorem Save_succeeds_iff (uniqueID1 uniqueID2 : string)
    (bo : BlockOperation) (m : gmap string Common.JSON)
    (fs : list (option Error)) :
  (exists r st',
     Save uniqueID1 uniqueID2 bo {| Core := m; faults := fs |} = (inr r, st'))
  <-> (isSaved bo = false
       /\ m !! GetBlockOperationKey (Hash bo) = None
       /\ m !! NewBlockOperationTxHashKey uniqueID1 bo = None
       /\ m !! NewBlockOperationSourceKey uniqueID2 bo = None
       /\ Forall (fun f => f = None) (take 4 fs)).
Proof.
  split.
  - intros (r & [m' fs'] & HSave).
    pose proof (Save_answers _ _ _ _ _ _ _ HSave) as Hf.
    apply Save_done in HSave as (_ & Hs & Hp & Ht & Hsk & _). done.
  - intros (Hs & Hp & Ht & Hsk & Hf). eexists _, _.
    by apply Save_succeeds.
Qed.

(** X10. [Save] never removes an entry and never changes one: whatever it
    returns, what was in the store is still there, and at most three
    entries have been added. *)
Theorem Save_only_adds (uniqueID1 uniqueID2 : string) (bo : BlockOperation)
    (st st' : LevelDBBackend) (r : Error + BlockOperation * string) :
  Save uniqueID1 uniqueID2 bo st = (r, st') ->
  (forall k v, Core st !! k = Some v -> Core st' !! k = Some v)
  /\ (size (Core st') <= size (Core st) + 3)%nat.
Proof.
  intros HSave. pose proof (Save_outcome _ _ _ _ _ _ HSave) as Hout.
  split.
  - intros k v Hk. eapply lookup_weaken; [exact Hk |].
    by eapply SaveOutcome_subseteq.
  - destruct Hout as [e | e ? Hp | e ? Hp Ht | ? Hp Ht Hsk];
      unfold withSourceIndex, withTxIndex, withPrimary in *;
      rewrite ?map_size_insert_None by done; lia.
Qed.

Lemma Save_only_adds_witness :
  (size (Core (Save "u7" "u8" (scenarioOperation "a" 10 1)
                 scenarioStore).2)
   <= size (Core scenarioStore) + 3)%nat.
Proof.
  destruct (Save "u7" "u8" (scenarioOperation "a" 10 1) scenarioStore)
    as [r st'] eqn:E.
  exact (proj2 (Save_only_adds "u7" "u8" (scenarioOperation "a" 10 1)
                  scenarioStore st' r E)).
Defined.

(** *** Reading a record back *)

Lemma Unmarshal_Serialize bo :
  Unmarshal (Serialize bo)
  = inr {| Hash := Hash bo; OpHash := OpHash bo; TxHash := TxHash bo;
           Type_ := Type_ bo; Source := Source bo; Body := Body bo;
           Height := Height bo; transaction := Transaction.zero;
           isSaved := false |}.
Proof. done. Qed.

(** X11. A record that was saved with success is read back by
    [GetBlockOperation], from every later store, whenever the engine
    answers: with its exported fields as they were saved, without the
    transaction, and marked as saved. *)
Theorem GetBlockOperation_after_Save (uniqueID1 uniqueID2 : string)
    (bo : BlockOperation) (m : gmap string Common.JSON)
    (fs : list (option Error)) :
  Saved uniqueID1 uniqueID2 bo m ->
  engineFails {| Core := m; faults := fs |} = None ->
  GetBlockOperation (Hash bo) {| Core := m; faults := fs |}
  = (inr (stored bo), {| Core := m; faults := tail fs |}).
Proof.
  intros (_ & Hp & _)%Saved_entries Hup. rewrite GetBlockOperation_eval.
  unfold primaryKey in Hp. rewrite Hp, Unmarshal_Serialize.
  by destruct fs as [| [e |] rest].
Qed.

(** The history of the scenario store. *)
Lemma scenario_Saved :
  exists m3,
    scenarioStore = {| Core := m3; faults := [] |}
    /\ Saved "u3" "u4" (scenarioOperation "b" 10 2) m3
    /\ Saved "u5" "u6" (scenarioOperation "c" 11 1) m3.
Proof.
  set (O1 := scenarioOperation "a" 10 1).
  set (O2 := scenarioOperation "b" 10 2).
  set (O3 := scenarioOperation "c" 11 1).
  set (m1 := withSourceIndex "u1" "u2" O1 ∅).
  set (m2 := withSourceIndex "u3" "u4" O2 m1).
  set (m3 := withSourceIndex "u5" "u6" O3 m2).
  assert (H1 : Save "u1" "u2" O1 {| Core := ∅; faults := [] |}
               = (inr (set_isSaved true O1, savedEvent (set_isSaved true O1)),
                  {| Core := m1; faults := [] |}))
    by (vm_compute; reflexivity).
  assert (H2 : Save "u3" "u4" O2 {| Core := m1; faults := [] |}
               = (inr (set_isSaved true O2, savedEvent (set_isSaved true O2)),
                  {| Core := m2; faults := [] |}))
    by (vm_compute; reflexivity).
  assert (H3 : Save "u5" "u6" O3 {| Core := m2; faults := [] |}
               = (inr (set_isSaved true O3, savedEvent (set_isSaved true O3)),
                  {| Core := m3; faults := [] |}))
    by (vm_compute; reflexivity).
  assert (S1 : save_step ∅ m1).
  { exists "u1", "u2", O1, []. eexists _, []. exact H1. }
  assert (S2 : save_step m1 m2).
  { exists "u3", "u4", O2, []. eexists _, []. exact H2. }
  assert (S3 : save_step m2 m3).
  { exists "u5", "u6", O3, []. eexists _, []. exact H3. }
  exists m3. split; [vm_compute; reflexivity |]. split.
  - exists m1, []. eexists _, [], m2.
    split; [exact (rtc_once _ _ S1) |]. split; [exact H2 |].
    exact (rtc_once _ _ S3).
  - exists m2, []. eexists _, [], m3.
    split; [exact (rtc_l _ _ _ _ S1 (rtc_once _ _ S2)) |].
    split; [exact H3 | apply rtc_refl].
Defined.

Lemma GetBlockOperation_after_Save_witness :
  (GetBlockOperation "c-T" scenarioStore).1
  = inr (stored (scenarioOperation "c" 11 1)).
Proof.
  destruct scenario_Saved as (m3 & Hst & _ & HS). rewrite Hst.
  change "c-T" with (Hash (scenarioOperation "c" 11 1)).
  by rewrite (GetBlockOperation_after_Save "u5" "u6"
                (scenarioOperation "c" 11 1) m3 [] HS eq_refl).
Defined.

Lemma GetBlockOperationKey_inj h h' :
  GetBlockOperationKey h = GetBlockOperationKey h' -> h = h'.
Proof. unfold GetBlockOperationKey. apply (inj _). Qed.

(** X12. In a store built by saves, and when the engine answers,
    [GetBlockOperation] succeeds exactly for the hashes for which
    [ExistsBlockOperation] is true, the record it returns has the hash asked
    for and is marked as saved, and for the other hashes it fails with the
    error of a missing record. Neither call changes the content of the
    store. *)
Theorem GetBlockOperation_iff_Exists (hash : string)
    (m : gmap string Common.JSON) (fs : list (option Error)) :
  reachable m ->
  engineFails {| Core := m; faults := fs |} = None ->
  let st := {| Core := m; faults := fs |} in
  ((ExistsBlockOperation hash st).1 = inr true
   <-> exists bo, (GetBlockOperation hash st).1 = inr bo)
  /\ (forall bo, (GetBlockOperation hash st).1 = inr bo ->
                 Hash bo = hash /\ isSaved bo = true)
  /\ ((ExistsBlockOperation hash st).1 = inr false ->
      (GetBlockOperation hash st).1 = inl StorageRecordDoesNotExist)
  /\ Core (ExistsBlockOperation hash st).2 = m
  /\ Core (GetBlockOperation hash st).2 = m.
Proof.
  intros HI%reachable_Inv Hup st. subst st.
  unfold ExistsBlockOperation. rewrite Has_eval, GetBlockOperation_eval.
  destruct fs as [| [e |] rest]; try done; simpl;
    (destruct (m !! GetBlockOperationKey hash) as [v |] eqn:Hk;
     [| rewrite bool_decide_false by (by inv 1);
        split_and!; try done; [split; [done | by intros [? ?]]]]);
    rewrite bool_decide_true by done;
    (destruct (inv_shape m HI _ _ Hk)
       as [(bo & Hkey & ->) | (bo & -> & Htag & _)]; [| done]);
    apply GetBlockOperationKey_inj in Hkey as ->;
    rewrite Unmarshal_Serialize; simpl;
    (split_and!; try done;
     [split; [by eexists | done] | by intros ? [= <-]]).
Qed.

Lemma GetBlockOperation_iff_Exists_witness :
  (GetBlockOperation "zz" {| Core := ∅; faults := [] |}).1
  = inl StorageRecordDoesNotExist.
Proof.
  exact (proj1 (proj2 (proj2
           (GetBlockOperation_iff_Exists "zz" ∅ [] (rtc_refl _ _) eq_refl)))
           eq_refl).
Defined.

(** *** What the iterators yield *)

Lemma GetBlockOperation_Core hash st r st' :
  GetBlockOperation hash st = (r, st') ->
  Core st' = Core st
  /\ forall bo item,
       r = inr bo -> hash = UnmarshalString (Value item) ->
       readBack (Core st) item = Some bo.
Proof.
  destruct st as [m fs]. rewrite GetBlockOperation_eval. unfold readBack.
  destruct fs as [| [e |] rest]; intros ?; simplify_eq; simpl;
    (split; [done |]); intros bo item Hr ->; try done;
    destruct (m !! _) as [v |]; try done;
    destruct (Unmarshal v); by simplify_eq.
Qed.

(** X13. Whatever the engine does, an iterator yields a prefix of what
    the entries it goes through resolve to, in their order: a failed read
    cuts the iteration short, and never puts in a record that the store
    does not hold under the hash of the entry. *)
Theorem yields_prefix (items : list IterItem) (st : LevelDBBackend) :
  yields items st `prefix_of` omap (readBack (Core st)) items.
Proof.
  revert st. induction items as [| item rest IH]; intros st; [done |].
  cbn [yields next].
  destruct (GetBlockOperation (UnmarshalString (Value item)) st)
    as [[e | bo] st1] eqn:E; simpl; [apply prefix_nil |].
  apply GetBlockOperation_Core in E as [Hc Hread].
  cbn [omap list_omap]. rewrite (Hread bo item eq_refl eq_refl).
  rewrite <- Hc. apply prefix_cons, IH.
Qed.











(** *** The keys *)

Lemma dashFree_cons c s :
  dashFree (String c s) = true -> c <> "-"%char /\ dashFree s = true.
Proof.
  simpl. intros [Hc Hs]%andb_true_iff. split; [| done].
  intros ->. by rewrite Ascii.eqb_refl in Hc.
Qed.

Lemma nil_append (s : string) : "" ++ s = s.
Proof. reflexivity. Qed.

Lemma dash_append (s : string) : "-" ++ s = String "-" s.
Proof. reflexivity. Qed.

(** X16. The key of a record tells its operation and its transaction
    apart: if the operation hashes hold no dash, two records with the same
    key have the same operation hash and the same transaction hash. *)
Theorem NewBlockOperationKey_inj (opHash txHash opHash' txHash' : string) :
  dashFree opHash = true -> dashFree opHash' = true ->
  NewBlockOperationKey opHash txHash = NewBlockOperationKey opHash' txHash' ->
  opHash = opHash' /\ txHash = txHash'.
Proof.
  unfold NewBlockOperationKey. revert opHash'.
  induction opHash as [| c s IH]; intros [| c' s'] Hd Hd';
    rewrite ?Keys.append_cons, ?nil_append, ?dash_append.
  - by intros [= ->].
  - apply dashFree_cons in Hd' as [Hc' _]. by intros [= <-].
  - apply dashFree_cons in Hd as [Hc _]. by intros [= ->].
  - apply dashFree_cons in Hd as [_ Hd].
    apply dashFree_cons in Hd' as [_ Hd'].
    intros [= -> Hrest].
    rewrite <- (dash_append txHash), <- (dash_append txHash') in Hrest.
    by destruct (IH s' Hd Hd' Hrest) as [-> ->].
Qed.

Lemma NewBlockOperationKey_inj_witness :
  "op1" = "op1" /\ "tx-1" = "tx-1".
Proof.
  exact (NewBlockOperationKey_inj "op1" "tx-1" "op1" "tx-1" eq_refl eq_refl
           eq_refl).
Defined.

(** X17. Between two records of one transaction with the same height and
    sequence ID, the order of the tx-index keys is the order of the unique
    IDs drawn for them; likewise for two records of one source and the
    source-index keys. *)
Theorem unique_id_breaks_ties (a b : BlockOperation) (ua ub : string) :
  Height a = Height b ->
  Transaction.SequenceID (Transaction.B (transaction a))
  = Transaction.SequenceID (Transaction.B (transaction b)) ->
  (TxHash a = TxHash b ->
   String.compare (NewBlockOperationTxHashKey ua a)
                  (NewBlockOperationTxHashKey ub b)
   = String.compare ua ub)
  /\ (Source a = Source b ->
      String.compare (NewBlockOperationSourceKey ua a)
                     (NewBlockOperationSourceKey ub b)
      = String.compare ua ub).
Proof.
  intros Hh Hseq.
  unfold NewBlockOperationTxHashKey, NewBlockOperationSourceKey.
  rewrite Hh, Hseq. split; intros ->; by rewrite !Keys.compare_app.
Qed.

Lemma unique_id_breaks_ties_witness :
  String.compare
    (NewBlockOperationTxHashKey "u1" (scenarioOperation "a" 10 1))
    (NewBlockOperationTxHashKey "u2" (scenarioOperation "b" 10 1))
  = Lt.
Proof.
  rewrite (proj1 (unique_id_breaks_ties (scenarioOperation "a" 10 1)
                    (scenarioOperation "b" 10 1) "u1" "u2" eq_refl eq_refl)
             eq_refl).
  reflexivity.
Defined.

End IndexMore.
